(** * PomodoroTimer (src/Website/src/App.js): a shallow embedding

    The React component [PomodoroTimer] is embedded as a record of its hook
    values (the [useState] cells and the [useRef] cells), the browser's queue
    of animation-frame requests, and one function per event handler, effect
    and callback of the component.

    Numbers.  JavaScript has one number type, the IEEE 754 binary64 value;
    each variable gets here the type of the values the program stores in it:
    - minutes, whole seconds, identifiers and counters are integers ([Z]),
      which binary64 holds exactly below 2^53;
    - in the state of the component, clock readings and the elapsed time are
      rationals ([Q]) and the arithmetic on them is exact: this is the
      idealised timer, and what is proved of it are the properties that do
      not hang on the last bit of a result (control flow, bounds, order);
    - the arithmetic of the timer as the machine does it, every operation
      rounded to the nearest binary64 value, is in module [Double]; the
      properties of the numbers shown (remaining seconds, the reading after
      a resume, the index of the dot) are stated there;
    - the productivity curve, which calls [Math.exp], is over the reals
      ([R]); the component samples it for the durations of [DURATIONS] with
      the default of 200 samples, and only these calls are reasoned about. *)

From Stdlib Require Import String Ascii.
From Stdlib Require Import ZArith QArith Qround Qminmax Qabs Qpower Lqa.
From Stdlib Require Import Reals Qreals Lra Lia.
From Corelib Require PrimFloat FloatOps SpecFloat.
From Stdlib Require Import List Bool.
Import ListNotations.

(** ** The curve sampler *)

Module Curve.
Local Open Scope R_scope.

(** A point [{ x, y }] of the sampled curve. *)
Record Point : Type := mkPoint { px : R; py : R }.

(** [samples = 200], the default value of the second parameter. *)
Definition defaultSamples : nat := 200.

(** Lines 49-52: the number of peaks.
<<
  let peaks = 1;
  if (minutes >= 90) peaks = 3;
  else if (minutes >= 60) peaks = 2;
  else if (minutes >= 30) peaks = 1;
>> *)
Definition peaksFor (minutes : Z) : nat :=
  if (90 <=? minutes)%Z then 3%nat
  else if (60 <=? minutes)%Z then 2%nat
  else if (30 <=? minutes)%Z then 1%nat
  else 1%nat.

(** [Math.pow(v, 2)]. *)
Definition pow2 (v : R) : R := v ^ 2.

(** One turn of the inner loop (lines 60-62), for peak number [p]. *)
Definition gaussian (tMax : R) (peaks : nat) (t : R) (p : nat) : R :=
  let center := (INR (p + 1) / INR (peaks + 1)) * tMax in
  let width := tMax / (INR peaks * 3.5) in
  exp (- pow2 ((t - center) / width)).

(** The inner loop [for (let p = 0; p < peaks; p++) y += ...], from [y = 0]. *)
Definition sumGaussians (tMax : R) (peaks : nat) (t : R) : R :=
  fold_left (fun y p => y + gaussian tMax peaks t p) (seq 0 peaks) 0.

(** The body of the outer loop (lines 56-66) at index [i]. *)
Definition rawPoint (minutes : Z) (samples : nat) (i : nat) : Point :=
  let tMax := IZR minutes * 60 in
  let peaks := peaksFor minutes in
  let t := (INR i / INR samples) * tMax in
  let y := sumGaussians tMax peaks t in
  let y := y * (1 - 0.15 * (t / tMax)) in
  {| px := INR i / INR samples; py := y |}.

(** The outer loop [for (let i = 0; i <= samples; i++) points.push(...)]. *)
Definition rawPoints (minutes : Z) (samples : nat) : list Point :=
  map (rawPoint minutes samples) (seq 0 (S samples)).

(** [Math.max(...ys)].  On the empty list JavaScript answers [-Infinity],
    which is no real number; the sampler always passes [samples + 1 >= 1]
    values, so that case is not reached and is given the value [0] here. *)
Definition Math_max (ys : list R) : R :=
  match ys with
  | [] => 0
  | y :: rest => fold_left Rmax rest y
  end.

(** Lines 45-72, over the reals.  The component calls it with a duration
    of [DURATIONS] and the default number of samples; what the source does
    with other arguments where the reals and binary64 part ways (a duration
    of 0, numbers out of range, more samples than [Math.max] takes
    arguments) is not modelled. *)
Definition sampleProductivityCurve (minutes : Z) (samples : nat) : list Point :=
  let points := rawPoints minutes samples in
  let ys := map py points in
  let maxY := Math_max ys in
  map (fun p => {| px := px p; py := py p / maxY |}) points.

(** The statements of the sampler one by one, for the properties that name
    them. *)

(** Line 47: [const tMax = minutes * 60]. *)
Definition tMaxOf (minutes : Z) : R := IZR minutes * 60.

(** Line 57: [const t = (i / samples) * tMax]. *)
Definition sampleTime (tMax : R) (samples i : nat) : R :=
  (INR i / INR samples) * tMax.

(** Line 62: [y += Math.exp(...)], for peak number [p]. *)
Definition addGaussian (tMax : R) (peaks : nat) (t : R) (y : R) (p : nat)
  : R :=
  y + gaussian tMax peaks t p.

(** Line 64: [y *= 1 - 0.15 * (t / tMax)]. *)
Definition decayed (tMax t y : R) : R := y * (1 - 0.15 * (t / tMax)).

(** Line 71: [p.y / maxY]. *)
Definition normalised (y maxY : R) : R := y / maxY.

End Curve.

(** ** JavaScript strings *)

Module JsString.

(** A string is its sequence of UTF-16 code units. *)
Definition t : Type := list N.

(** A literal of the source, from its (ASCII) characters. *)
Definition ofString (s : string) : t :=
  map N_of_ascii (list_ascii_of_string s).

(** WhiteSpace and LineTerminator code points of ECMAScript, the ones
    [String.prototype.trim] strips: TAB, LF, VT, FF, CR, SP, NBSP, U+1680,
    U+2000..U+200A, U+2028, U+2029, U+202F, U+205F, U+3000, U+FEFF. *)
Definition isWhiteSpace (c : N) : bool :=
  ((9 <=? c) && (c <=? 13) || (c =? 32) || (c =? 160) || (c =? 5760)
   || (8192 <=? c) && (c <=? 8202) || (c =? 8232) || (c =? 8233)
   || (c =? 8239) || (c =? 8287) || (c =? 12288) || (c =? 65279))%N.

Fixpoint trimStart (s : t) : t :=
  match s with
  | [] => []
  | c :: rest => if isWhiteSpace c then trimStart rest else s
  end.

Definition trimEnd (s : t) : t := rev (trimStart (rev s)).

(** [s.trim()]. *)
Definition trim (s : t) : t := trimEnd (trimStart s).

(** [!s]: the empty string is the only falsy string. *)
Definition isFalsy (s : t) : bool :=
  match s with [] => true | _ :: _ => false end.

End JsString.

(** ** The component *)

Local Open Scope Z_scope.

(** Line 14. *)
Definition DURATIONS : list Z := [120; 90; 60; 30; 15; 10; 5].

(** Lines 26-34; a key that is absent reads as [undefined]. *)
Definition BREAK_RECOMMENDATIONS (minutes : Z) : option (list Z) :=
  if minutes =? 120 then Some [15; 20; 30]
  else if minutes =? 90 then Some [15; 20]
  else if minutes =? 60 then Some [10; 15]
  else if minutes =? 30 then Some [5; 10]
  else if minutes =? 15 then Some [3; 5]
  else if minutes =? 10 then Some [2; 3]
  else if minutes =? 5 then Some [1; 2]
  else None.

(** A task [{ id, text, done }]. *)
Record Task : Type := mkTask { id : Z; text : JsString.t; done : bool }.

(** The hook values of [PomodoroTimer] (lines 75-93) and the part of the
    browser the component talks to: the pending [requestAnimationFrame]
    requests, the next request handle, and the number of pending
    [setTimeout(() => setCelebrate(false), 4200)] timers.  The audio graph of
    [playVictorySound] ([audioCtxRef]) only makes sound and is left out. *)
Record State : Type := mkState {
  selectedMinutes : Z;
  breakMinutes : option Z;
  running : bool;
  secondsLeft : Z;
  elapsed : Q;
  tasks : list Task;
  newTask : JsString.t;
  sessionsCompleted : Z;
  celebrate : bool;
  rafRef : option nat;
  startTimestampRef : option Q;
  totalSecondsRef : Z;
  curveRef : list Curve.Point;
  frames : list nat;
  nextHandle : nat;
  timers : nat
}.

(** What the clocks answer while one event is handled:
    [performance.now()] (milliseconds) and [Date.now()] (whole milliseconds). *)
Record Env : Type := mkEnv { perfNow : Q; dateNow : Z }.

(** *** State setters and ref assignments *)

Definition setSelectedMinutes (v : Z) (s : State) : State :=
  mkState v (breakMinutes s) (running s) (secondsLeft s) (elapsed s) (tasks s)
    (newTask s) (sessionsCompleted s) (celebrate s) (rafRef s)
    (startTimestampRef s) (totalSecondsRef s) (curveRef s) (frames s)
    (nextHandle s) (timers s).

Definition setBreakMinutes (v : option Z) (s : State) : State :=
  mkState (selectedMinutes s) v (running s) (secondsLeft s) (elapsed s) (tasks s)
    (newTask s) (sessionsCompleted s) (celebrate s) (rafRef s)
    (startTimestampRef s) (totalSecondsRef s) (curveRef s) (frames s)
    (nextHandle s) (timers s).

Definition setRunning (v : bool) (s : State) : State :=
  mkState (selectedMinutes s) (breakMinutes s) v (secondsLeft s) (elapsed s)
    (tasks s) (newTask s) (sessionsCompleted s) (celebrate s) (rafRef s)
    (startTimestampRef s) (totalSecondsRef s) (curveRef s) (frames s)
    (nextHandle s) (timers s).

Definition setSecondsLeft (v : Z) (s : State) : State :=
  mkState (selectedMinutes s) (breakMinutes s) (running s) v (elapsed s)
    (tasks s) (newTask s) (sessionsCompleted s) (celebrate s) (rafRef s)
    (startTimestampRef s) (totalSecondsRef s) (curveRef s) (frames s)
    (nextHandle s) (timers s).

Definition setElapsed (v : Q) (s : State) : State :=
  mkState (selectedMinutes s) (breakMinutes s) (running s) (secondsLeft s) v
    (tasks s) (newTask s) (sessionsCompleted s) (celebrate s) (rafRef s)
    (startTimestampRef s) (totalSecondsRef s) (curveRef s) (frames s)
    (nextHandle s) (timers s).

(** [setTasks((t) => f(t))]. *)
Definition setTasks (f : list Task -> list Task) (s : State) : State :=
  mkState (selectedMinutes s) (breakMinutes s) (running s) (secondsLeft s)
    (elapsed s) (f (tasks s)) (newTask s) (sessionsCompleted s) (celebrate s)
    (rafRef s) (startTimestampRef s) (totalSecondsRef s) (curveRef s)
    (frames s) (nextHandle s) (timers s).

Definition setNewTask (v : JsString.t) (s : State) : State :=
  mkState (selectedMinutes s) (breakMinutes s) (running s) (secondsLeft s)
    (elapsed s) (tasks s) v (sessionsCompleted s) (celebrate s) (rafRef s)
    (startTimestampRef s) (totalSecondsRef s) (curveRef s) (frames s)
    (nextHandle s) (timers s).

(** [setSessionsCompleted((n) => f(n))]. *)
Definition setSessionsCompleted (f : Z -> Z) (s : State) : State :=
  mkState (selectedMinutes s) (breakMinutes s) (running s) (secondsLeft s)
    (elapsed s) (tasks s) (newTask s) (f (sessionsCompleted s)) (celebrate s)
    (rafRef s) (startTimestampRef s) (totalSecondsRef s) (curveRef s)
    (frames s) (nextHandle s) (timers s).

Definition setCelebrate (v : bool) (s : State) : State :=
  mkState (selectedMinutes s) (breakMinutes s) (running s) (secondsLeft s)
    (elapsed s) (tasks s) (newTask s) (sessionsCompleted s) v (rafRef s)
    (startTimestampRef s) (totalSecondsRef s) (curveRef s) (frames s)
    (nextHandle s) (timers s).

(** [rafRef.current = v]. *)
Definition setRafRef (v : option nat) (s : State) : State :=
  mkState (selectedMinutes s) (breakMinutes s) (running s) (secondsLeft s)
    (elapsed s) (tasks s) (newTask s) (sessionsCompleted s) (celebrate s) v
    (startTimestampRef s) (totalSecondsRef s) (curveRef s) (frames s)
    (nextHandle s) (timers s).

(** [startTimestampRef.current = v]. *)
Definition setStartTimestampRef (v : option Q) (s : State) : State :=
  mkState (selectedMinutes s) (breakMinutes s) (running s) (secondsLeft s)
    (elapsed s) (tasks s) (newTask s) (sessionsCompleted s) (celebrate s)
    (rafRef s) v (totalSecondsRef s) (curveRef s) (frames s) (nextHandle s)
    (timers s).

(** [totalSecondsRef.current = v]. *)
Definition setTotalSecondsRef (v : Z) (s : State) : State :=
  mkState (selectedMinutes s) (breakMinutes s) (running s) (secondsLeft s)
    (elapsed s) (tasks s) (newTask s) (sessionsCompleted s) (celebrate s)
    (rafRef s) (startTimestampRef s) v (curveRef s) (frames s) (nextHandle s)
    (timers s).

(** [curveRef.current = v]. *)
Definition setCurveRef (v : list Curve.Point) (s : State) : State :=
  mkState (selectedMinutes s) (breakMinutes s) (running s) (secondsLeft s)
    (elapsed s) (tasks s) (newTask s) (sessionsCompleted s) (celebrate s)
    (rafRef s) (startTimestampRef s) (totalSecondsRef s) v (frames s)
    (nextHandle s) (timers s).

Definition setFrames (v : list nat) (s : State) : State :=
  mkState (selectedMinutes s) (breakMinutes s) (running s) (secondsLeft s)
    (elapsed s) (tasks s) (newTask s) (sessionsCompleted s) (celebrate s)
    (rafRef s) (startTimestampRef s) (totalSecondsRef s) (curveRef s) v
    (nextHandle s) (timers s).

Definition setNextHandle (v : nat) (s : State) : State :=
  mkState (selectedMinutes s) (breakMinutes s) (running s) (secondsLeft s)
    (elapsed s) (tasks s) (newTask s) (sessionsCompleted s) (celebrate s)
    (rafRef s) (startTimestampRef s) (totalSecondsRef s) (curveRef s)
    (frames s) v (timers s).

Definition setTimers (v : nat) (s : State) : State :=
  mkState (selectedMinutes s) (breakMinutes s) (running s) (secondsLeft s)
    (elapsed s) (tasks s) (newTask s) (sessionsCompleted s) (celebrate s)
    (rafRef s) (startTimestampRef s) (totalSecondsRef s) (curveRef s)
    (frames s) (nextHandle s) v.

(** *** The browser's animation frames and timers *)

(** [requestAnimationFrame(tick)]: a fresh handle joins the pending requests.
    [tick] is the only callback the component ever registers, and it reads
    refs only, so a request is its handle. *)
Definition requestAnimationFrame (s : State) : nat * State :=
  let h := nextHandle s in
  (h, setNextHandle (S h) (setFrames (frames s ++ [h]) s)).

(** [cancelAnimationFrame(h)]: the request leaves the queue; a handle that is
    [null] or no longer pending cancels nothing. *)
Definition cancelAnimationFrame (h : option nat) (s : State) : State :=
  match h with
  | None => s
  | Some i => setFrames (remove Nat.eq_dec i (frames s)) s
  end.

(** *** Callbacks of the component *)

(** Lines 162-166.  [playVictorySound] touches the audio graph only. *)
Definition triggerCelebration (s : State) : State :=
  setTimers (S (timers s)) (setCelebrate true s).

(** [startTimestampRef.current] read as a number: [null] counts as [0]. *)
Definition startTimestamp (s : State) : Q :=
  match startTimestampRef s with
  | Some t => t
  | None => 0%Q
  end.

(** [Math.max(0, (now - startTimestampRef.current) / 1000)], line 113, in
    exact arithmetic; [Double.elapsedSec] is the rounded computation. *)
Definition elapsedAt (now : Q) (s : State) : Q :=
  Qmax 0 ((now - startTimestamp s) / 1000).

(** [Math.max(0, Math.ceil(total - elapsedSec))], line 115, in exact
    arithmetic; [Double.left] is the rounded computation. *)
Definition remainingSeconds (total : Z) (elapsedSec : Q) : Z :=
  Z.max 0 (Qceiling (inject_Z total - elapsedSec)).

(** Lines 112-127: [tick(now)]. *)
Definition tick (now : Q) (s : State) : State :=
  let elapsedSec := elapsedAt now s in
  let s := setElapsed elapsedSec s in
  let left := remainingSeconds (totalSecondsRef s) elapsedSec in
  let s := setSecondsLeft left s in
  if Qle_bool (inject_Z (totalSecondsRef s)) elapsedSec then
    let s := setRunning false s in
    let s := setElapsed (inject_Z (totalSecondsRef s)) s in
    let s := setSecondsLeft 0 s in
    let s := setSessionsCompleted (fun n => n + 1) s in
    triggerCelebration s
  else
    let (h, s) := requestAnimationFrame s in
    setRafRef (Some h) s.

(** Lines 134-142. *)
Definition startStop (s : State) : State :=
  if running s then
    cancelAnimationFrame (rafRef s) (setRunning false s)
  else
    setRunning true s.

(** Lines 144-149. *)
Definition resetTimer (s : State) : State :=
  let s1 := setRunning false s in
  let s1 := cancelAnimationFrame (rafRef s1) s1 in
  let s1 := setSecondsLeft (selectedMinutes s * 60) s1 in
  setElapsed 0 s1.

(** Lines 151-155; [now] is what [Date.now()] answers. *)
Definition addTask (now : Z) (s : State) : State :=
  if JsString.isFalsy (JsString.trim (newTask s)) then s
  else
    let s1 :=
      setTasks (fun t => t ++ [mkTask now (JsString.trim (newTask s)) false]) s in
    setNewTask [] s1.

(** The function mapped over the tasks at line 158. *)
Definition toggleOne (i : Z) (task : Task) : Task :=
  if id task =? i then mkTask (id task) (text task) (negb (done task))
  else task.

(** Lines 157-159. *)
Definition toggleTask (i : Z) (s : State) : State :=
  setTasks (fun t => map (toggleOne i) t) s.

(** *** Effects *)

(** The body of the effect of lines 95-104.  [r] is the render whose values
    the closure holds; [s] is the store the setters and refs act on. *)
Definition effectSelectedMinutes (r s : State) : State :=
  let s := setSecondsLeft (selectedMinutes r * 60) s in
  let s := setElapsed 0 s in
  let s := setTotalSecondsRef (selectedMinutes r * 60) s in
  let s := setCurveRef
             (Curve.sampleProductivityCurve (selectedMinutes r)
                Curve.defaultSamples) s in
  let s := setBreakMinutes None s in
  let s := setRunning false s in
  cancelAnimationFrame (rafRef s) s.

(** The body of the effect of lines 106-132 ([tick] is above).  The anchor
    of line 110 is exact here; [Double.anchor] is the rounded one. *)
Definition effectRunning (env : Env) (r s : State) : State :=
  if negb (running r) then s
  else
    let s := setStartTimestampRef
               (Some (perfNow env - elapsed r * 1000)%Q) s in
    let (h, s) := requestAnimationFrame s in
    setRafRef (Some h) s.

(** Its cleanup, line 130. *)
Definition cleanupRunning (s : State) : State :=
  cancelAnimationFrame (rafRef s) s.

(** Dependency arrays [[selectedMinutes]] and [[running]]: did the value
    change between the previous render and this one? *)
Definition changedSelectedMinutes (prev cur : State) : bool :=
  negb (selectedMinutes prev =? selectedMinutes cur).

Definition changedRunning (prev cur : State) : bool :=
  negb (Bool.eqb (running prev) (running cur)).

(** One commit: the cleanups of the effects whose dependencies changed, then
    their bodies in the order of the source.  The effect on [running]
    returned a cleanup only when it ran with [running] true. *)
Definition effectsPass (env : Env) (prev cur : State) : State :=
  let s := cur in
  let s := if changedRunning prev cur && running prev
           then cleanupRunning s else s in
  let s := if changedSelectedMinutes prev cur
           then effectSelectedMinutes cur s else s in
  let s := if changedRunning prev cur
           then effectRunning env cur s else s in
  s.

(** Render and commit until no effect is due: a state set by an effect
    renders again. *)
Fixpoint settle (fuel : nat) (env : Env) (prev cur : State) : State :=
  match fuel with
  | O => cur
  | S fuel' =>
      if changedSelectedMinutes prev cur || changedRunning prev cur
      then settle fuel' env cur (effectsPass env prev cur)
      else cur
  end.

(** Two commits always suffice (lemma [settle_stable] below). *)
Definition commit (env : Env) (prev cur : State) : State :=
  settle 2 env prev cur.

(** *** Events *)

Inductive Event : Type :=
| ClickDuration (d : Z)          (* line 280 *)
| ClickBreak (b : Z)             (* line 298 *)
| ClickNoBreak                   (* line 304 *)
| ClickStartStop                 (* line 314 *)
| ClickReset                     (* line 319 *)
| ChangeNewTask (v : JsString.t) (* line 342 *)
| ClickAdd                       (* line 343 *)
| ClickTask (i : Z)              (* line 336 *)
| AnimationFrame (now : Q)       (* the browser runs the pending requests *)
| CelebrationTimeout.            (* the timer of line 165 fires *)

(** The browser delivers a frame: every pending request is taken off the
    queue and its callback runs with the frame's timestamp. *)
Definition animationFrame (now : Q) (s : State) : State :=
  fold_left (fun st _ => tick now st) (frames s) (setFrames [] s).

Definition celebrationTimeout (s : State) : State :=
  match timers s with
  | O => s
  | S n => setTimers n (setCelebrate false s)
  end.

(** The handler of an event, before React renders again. *)
Definition handler (env : Env) (e : Event) (s : State) : State :=
  match e with
  | ClickDuration d => setSelectedMinutes d s
  | ClickBreak b => setBreakMinutes (Some b) s
  | ClickNoBreak => setBreakMinutes (Some 0) s
  | ClickStartStop => startStop s
  | ClickReset => resetTimer s
  | ChangeNewTask v => setNewTask v s
  | ClickAdd => addTask (dateNow env) s
  | ClickTask i => toggleTask i s
  | AnimationFrame now => animationFrame now s
  | CelebrationTimeout => celebrationTimeout s
  end.

(** An event, handled and committed. *)
Definition handle (env : Env) (e : Event) (s : State) : State :=
  commit env s (handler env e s).

(** Which events the rendered page offers: one button per entry of
    [DURATIONS], one per recommended break of the selected duration, one
    checkbox per task; a timeout fires only while one is pending. *)
Definition offered (s : State) (e : Event) : Prop :=
  match e with
  | ClickDuration d => In d DURATIONS
  | ClickBreak b =>
      exists bs, BREAK_RECOMMENDATIONS (selectedMinutes s) = Some bs /\ In b bs
  | ClickTask i => In i (map id (tasks s))
  | CelebrationTimeout => (0 < timers s)%nat
  | _ => True
  end.

(** Lines 75-93: the initial hook values. *)
Definition initialState : State :=
  {| selectedMinutes := 30;
     breakMinutes := None;
     running := false;
     secondsLeft := 30 * 60;
     elapsed := 0;
     tasks := [ mkTask 1 (JsString.ofString "Read article") false;
                mkTask 2 (JsString.ofString "Write report") false ];
     newTask := [];
     sessionsCompleted := 0;
     celebrate := false;
     rafRef := None;
     startTimestampRef := None;
     totalSecondsRef := 30 * 60;
     curveRef := Curve.sampleProductivityCurve 30 Curve.defaultSamples;
     frames := [];
     nextHandle := 1;
     timers := 0 |}.

(** Mounting runs every effect once, then commits as usual. *)
Definition mount (env : Env) : State :=
  let s := effectSelectedMinutes initialState initialState in
  let s := effectRunning env initialState s in
  commit env initialState s.

(** The states the component can be in. *)
Inductive reachable : State -> Prop :=
| reachable_mount : forall env, reachable (mount env)
| reachable_handle : forall env e s,
    reachable s -> offered s e -> reachable (handle env e s).

(** A run of events, each with its clock readings. *)
Definition run (evs : list (Env * Event)) (s : State) : State :=
  fold_left (fun st ee => handle (fst ee) (snd ee) st) evs s.

(** ** Definitions used by the statements *)

(** Unfolds the setters and record projections of a state whose fields are
    known, and nothing else. *)
Ltac fields :=
  cbv beta iota zeta delta
      [selectedMinutes breakMinutes running secondsLeft elapsed tasks newTask
       sessionsCompleted celebrate rafRef startTimestampRef totalSecondsRef
       curveRef frames nextHandle timers
       setSelectedMinutes setBreakMinutes setRunning setSecondsLeft setElapsed
       setTasks setNewTask setSessionsCompleted setCelebrate setRafRef
       setStartTimestampRef setTotalSecondsRef setCurveRef setFrames
       setNextHandle setTimers
       requestAnimationFrame cancelAnimationFrame cleanupRunning
       triggerCelebration fst snd negb andb orb Bool.eqb] in *.

(** Names for the sixteen fields of a state. *)
Ltac open_state s :=
  destruct s as [sel brk run left el tks ntk done cel raf start total crv frs nh tms].

(** The per-frame loop is scheduled exactly while the timer runs, and the
    one pending request is the one [rafRef] holds. *)
Definition loopInv (s : State) : Prop :=
  if running s then exists h, rafRef s = Some h /\ frames s = [h]
  else frames s = [].

(** What holds of every state the component can be in. *)
Record Inv (s : State) : Prop := mkInv {
  inv_duration : In (selectedMinutes s) DURATIONS;
  inv_total : totalSecondsRef s = selectedMinutes s * 60;
  inv_elapsed_lo : (0 <= elapsed s)%Q;
  inv_elapsed_hi : (elapsed s <= inject_Z (totalSecondsRef s))%Q;
  inv_left : secondsLeft s = remainingSeconds (totalSecondsRef s) (elapsed s);
  inv_curve : curveRef s
              = Curve.sampleProductivityCurve (selectedMinutes s)
                  Curve.defaultSamples;
  inv_loop : loopInv s
}.

(** The timer is stopped and no frame is pending. *)
Definition idle (s : State) : Prop := running s = false /\ frames s = [].

(** Frames delivered while the timer is idle. *)
Definition framesOnly (l : list (Env * Q)) : list (Env * Event) :=
  map (fun p => (fst p, AnimationFrame (snd p))) l.

(** Two tasks typed and added while [Date.now()] answers the same
    millisecond. *)
Definition sameMillisecondAdds : list (Env * Event) :=
  let env := mkEnv 0 1700000000000 in
  [ (env, ChangeNewTask (JsString.ofString "a")); (env, ClickAdd);
    (env, ChangeNewTask (JsString.ofString "b")); (env, ClickAdd) ].

(** The page after choosing 5 minutes and clicking Start while
    [performance.now()] reads 1000. *)
Definition runningState : State :=
  handle (mkEnv 1000 0) ClickStartStop
    (handle (mkEnv 0 0) (ClickDuration 5) (mount (mkEnv 0 0))).

(** The same page one and a half seconds later, after one frame. *)
Definition midRunState : State :=
  handle (mkEnv 2500 0) (AnimationFrame 2500) runningState.

(** ** The rendered values *)

(** [String(n)] for an integer [n]: its decimal digits, most significant
    first, after a minus sign when [n] is negative.  [fuel] bounds the
    number of digits. *)
Fixpoint digitsFrom (fuel : nat) (n : Z) (acc : JsString.t) : JsString.t :=
  let acc := (48 + Z.to_N (n mod 10))%N :: acc in
  match fuel with
  | O => acc
  | S fuel' => if n <? 10 then acc else digitsFrom fuel' (n / 10) acc
  end.

Definition String_of_Z (n : Z) : JsString.t :=
  if n <? 0 then 45%N :: digitsFrom (Z.to_nat (Z.log2 (- n))) (- n) []
  else digitsFrom (Z.to_nat (Z.log2 n)) n [].

(** [s.padStart(target, fill)] for a one-character [fill]. *)
Definition padStart (target : nat) (fill : N) (s : JsString.t) : JsString.t :=
  repeat fill (target - length s) ++ s.

(** Lines 37-41, on whole seconds: [sec / 60] rounded down, and the
    remainder [sec % 60], which has the sign of [sec]. *)
Definition formatTime (sec : Z) : JsString.t :=
  let m := sec / 60 in
  let s := Z.rem sec 60 in
  padStart 2 48 (String_of_Z m) ++ [58%N] ++ padStart 2 48 (String_of_Z s).

(** The code unit of a decimal digit. *)
Definition digit (n : Z) : N := (48 + Z.to_N n)%N.

(** Equality test on texts. *)
Definition sameText (a b : JsString.t) : bool :=
  if list_eq_dec N.eq_dec a b then true else false.

(** Lines 195-196. *)
Definition graphWidth : R := 700.
Definition graphHeight : R := 120.

(** Line 231: [Math.min(1, total > 0 ? elapsed / total : 0)], in exact
    arithmetic; [Double.fraction] is the rounded computation. *)
Definition fraction (s : State) : Q :=
  Qmin 1 (if 0 <? totalSecondsRef s
          then elapsed s / inject_Z (totalSecondsRef s)
          else 0)%Q.

(** Lines 265-266: the length of the ring and the offset of its dashes,
    [Math.PI * 2 * 52] and [Math.PI * 2 * 52 * (1 - fraction)]. *)
Definition strokeDasharray : R := (PI * 2 * 52)%R.

Definition strokeDashoffset (s : State) : R :=
  (PI * 2 * 52 * (1 - Q2R (fraction s)))%R.

(** Line 232: [Math.floor(fraction * (points.length - 1))], in exact
    arithmetic; [Double.index] is the rounded computation. *)
Definition index (s : State) : Z :=
  Qfloor (fraction s * inject_Z (Z.of_nat (length (curveRef s)) - 1)).

(** [points[i]] for an integer [i]: [undefined] outside the array. *)
Definition at_index (points : list Curve.Point) (i : Z) : option Curve.Point :=
  if i <? 0 then None else nth_error points (Z.to_nat i).

(** Line 233: [points[index] || points[0]], for the index of line 232. *)
Definition dotPoint (points : list Curve.Point) (index : Z)
  : option Curve.Point :=
  match at_index points index with
  | Some p => Some p
  | None => at_index points 0
  end.

(** Lines 234-235. *)
Definition dotX (dotPoint : option Curve.Point) : R :=
  match dotPoint with
  | Some p => (Curve.px p * graphWidth)%R
  | None => 0%R
  end.

Definition dotY (dotPoint : option Curve.Point) : R :=
  match dotPoint with
  | Some p => (graphHeight - Curve.py p * (graphHeight - 10) - 10)%R
  | None => (graphHeight / 2)%R
  end.

(** Lines 200-204: a sample in the coordinates of the drawing. *)
Definition coord (p : Curve.Point) : Curve.Point :=
  {| Curve.px := (Curve.px p * graphWidth)%R;
     Curve.py := (graphHeight - Curve.py p * (graphHeight - 10) - 10)%R |}.

(** A command of the path, with the numbers that [toFixed(2)] then prints. *)
Inductive PathCmd : Type :=
| MoveTo (x y : R)
| CurveTo (x1 y1 x2 y2 x y : R).

(** [points[i]] where the source reads a field of it at once.  Outside the
    array the source would throw; the loop below only reads inside it (the
    default point stands for no read that happens). *)
Definition pointAt (points : list Curve.Point) (i : nat) : Curve.Point :=
  nth i points (Curve.mkPoint 0 0).

(** The body of the loop of lines 208-221 at index [i]. *)
Definition bezierSegment (points : list Curve.Point) (i : nat) : list PathCmd :=
  let p0 := pointAt points (if (i =? 0)%nat then i else i - 1) in
  let p1 := pointAt points i in
  let p2 := pointAt points (i + 1) in
  let p3 := pointAt points
              (if (i + 2 <? length points)%nat then i + 2 else i + 1) in
  let bp1x := (Curve.px p1 + (Curve.px p2 - Curve.px p0) / 6)%R in
  let bp1y := (Curve.py p1 + (Curve.py p2 - Curve.py p0) / 6)%R in
  let bp2x := (Curve.px p2 - (Curve.px p3 - Curve.px p1) / 6)%R in
  let bp2y := (Curve.py p2 - (Curve.py p3 - Curve.py p1) / 6)%R in
  (if (i =? 0)%nat then [MoveTo (Curve.px p1) (Curve.py p1)] else [])
  ++ [CurveTo bp1x bp1y bp2x bp2y (Curve.px p2) (Curve.py p2)].

(** Lines 206-223, as the list of commands that [d.join(" ")] prints. *)
Definition catmullRom2bezier (points : list Curve.Point) : list PathCmd :=
  flat_map (bezierSegment points) (seq 0 (length points - 1)).

(** Lines 198-225. *)
Definition buildPath (points : list Curve.Point) : list PathCmd :=
  catmullRom2bezier (map coord points).

(** The point a command ends at. *)
Definition endPoint (c : PathCmd) : Curve.Point :=
  match c with
  | MoveTo x y => Curve.mkPoint x y
  | CurveTo _ _ _ _ x y => Curve.mkPoint x y
  end.

(** ** Further invariants *)

(** The break selection is none, "No break", or a recommendation for the
    selected duration. *)
Definition breakInv (s : State) : Prop :=
  match breakMinutes s with
  | None => True
  | Some b =>
      b = 0 \/
      exists bs, BREAK_RECOMMENDATIONS (selectedMinutes s) = Some bs /\ In b bs
  end.

(** A text that [trim] leaves as it is and that is not empty. *)
Definition trimmed (v : JsString.t) : Prop :=
  v <> [] /\ JsString.trim v = v.

(** While the overlay shows, a timer that hides it is pending. *)
Definition celebrateInv (s : State) : Prop :=
  celebrate s = true -> (0 < timers s)%nat.

(** [l] is [l'] cut short. *)
Definition prefix {A : Type} (l l' : list A) : Prop :=
  exists rest, l' = l ++ rest.

(** Every event of a run is offered when its turn comes. *)
Fixpoint offeredRun (evs : list (Env * Event)) (s : State) : Prop :=
  match evs with
  | [] => True
  | (env, e) :: rest => offered s e /\ offeredRun rest (handle env e s)
  end.

(** The event is a frame that finds the running timer at or past its
    total. *)
Definition completes (e : Event) (s : State) : bool :=
  match e with
  | AnimationFrame now =>
      running s && Qle_bool (inject_Z (totalSecondsRef s)) (elapsedAt now s)
  | _ => false
  end.

(** ** Double-precision arithmetic

    The finite binary64 values are rationals; an operation of the machine
    is the exact operation followed by rounding to the nearest value, ties
    to even, with 53 significant bits, gradual underflow down to 2^-1074 and
    overflow from 2^1024 on.  What is not represented: the sign of zero and
    NaN, which the expressions below never tell apart or produce, and the
    infinities, for which an operation answers [None]. *)

Module Double.
Local Open Scope Q_scope.

(** [2^k] for an integer [k]. *)
Definition pow2 (k : Z) : Q := 2 ^ k.

(** The binary exponent of a positive number: the [e] with
    [2^e <= x < 2^(e+1)]. *)
Definition expo (x : Q) : Z :=
  let l := (Z.log2 (Qnum x) - Z.log2 (Zpos (Qden x)))%Z in
  if Qle_bool (pow2 l) x then l else (l - 1)%Z.

(** The nearest integer, the even one of two equally near. *)
Definition rne (q : Q) : Z :=
  let f := Qfloor q in
  match Qcompare (q - inject_Z f) (1 # 2) with
  | Lt => f
  | Gt => (f + 1)%Z
  | Eq => if Z.even f then f else (f + 1)%Z
  end.

(** The exponent of the last bit a binary64 value near [x] keeps: 53
    significant bits, and no bit below [2^-1074]. *)
Definition step (x : Q) : Z := Z.max (expo x - 52) (-1074).

(** A positive number rounded to the nearest binary64 value, ties to
    even. *)
Definition roundPos (x : Q) : Q :=
  inject_Z (rne (x / pow2 (step x))) * pow2 (step x).

Definition round (x : Q) : Q :=
  match Qcompare x 0 with
  | Eq => 0
  | Gt => roundPos x
  | Lt => - roundPos (- x)
  end.

(** The rounded value when it is finite; [None] stands for an infinity. *)
Definition round64 (x : Q) : option Q :=
  let r := round x in
  if Qle_bool (pow2 1024) (Qabs r) then None else Some r.

(** The binary64 values are the numbers rounding leaves as they are. *)
Definition isDouble (x : Q) : Prop := round x == x.

(** [a - b], [a * b] and [a / b] on binary64 values; a division by zero
    gives no finite value. *)
Definition sub (a b : Q) : option Q := round64 (a - b).
Definition mul (a b : Q) : option Q := round64 (a * b).
Definition div (a b : Q) : option Q :=
  if Qeq_bool b 0 then None else round64 (a / b).

Definition bind {A B : Type} (x : option A) (f : A -> option B) : option B :=
  match x with
  | Some a => f a
  | None => None
  end.

(** Line 110: [performance.now() - elapsed * 1000]. *)
Definition anchor (now elapsed : Q) : option Q :=
  bind (mul elapsed 1000) (fun m => sub now m).

(** Line 113: [Math.max(0, (now - startTimestampRef.current) / 1000)]. *)
Definition elapsedSec (now start : Q) : option Q :=
  bind (sub now start) (fun d =>
  bind (div d 1000) (fun q => Some (Qmax 0 q))).

(** Line 115: [Math.max(0, Math.ceil(totalSecondsRef.current - elapsedSec))]. *)
Definition left (total : Z) (elapsedSec : Q) : option Z :=
  bind (sub (inject_Z total) elapsedSec) (fun d =>
  Some (Z.max 0 (Qceiling d))).

(** Lines 113-121: what a frame stores as elapsed time and as remaining
    seconds, and whether it finishes the run. *)
Definition tick (total : Z) (now start : Q) : option (Q * Z * bool) :=
  bind (elapsedSec now start) (fun e =>
  bind (left total e) (fun l =>
  if Qle_bool (inject_Z total) e
  then Some (inject_Z total, 0%Z, true)
  else Some (e, l, false))).

(** Line 231: [Math.min(1, total > 0 ? elapsed / total : 0)]. *)
Definition fraction (total : Z) (elapsed : Q) : option Q :=
  if (0 <? total)%Z
  then bind (div elapsed (inject_Z total)) (fun q => Some (Qmin 1 q))
  else Some (Qmin 1 0).

(** Line 232: [Math.floor(fraction * (points.length - 1))]. *)
Definition index (length : nat) (fraction : Q) : option Z :=
  bind (mul fraction (inject_Z (Z.of_nat length - 1))) (fun m =>
  Some (Qfloor m)).

End Double.

(** The value of a machine number: [None] for an infinity or NaN. *)
Definition ofFloat (f : PrimFloat.float) : option Q :=
  match FloatOps.Prim2SF f with
  | SpecFloat.S754_zero _ => Some 0%Q
  | SpecFloat.S754_finite s m e =>
      Some ((if s then -1 else 1) * (inject_Z (Zpos m) * Double.pow2 e))%Q
  | _ => None
  end.

(** Two results are the same number, or both are none. *)
Definition sameValue (a b : option Q) : bool :=
  match a, b with
  | Some x, Some y => Qeq_bool x y
  | None, None => true
  | _, _ => false
  end.

(** * Properties *)

(** ** Commits *)

Lemma changedSelectedMinutes_refl (s : State) :
  changedSelectedMinutes s s = false.
Proof. unfold changedSelectedMinutes. now rewrite Z.eqb_refl. Qed.

Lemma changedRunning_refl (s : State) : changedRunning s s = false.
Proof. unfold changedRunning. now rewrite Bool.eqb_reflx. Qed.

(** Nothing is due when no dependency changed. *)
Lemma commit_same_deps (env : Env) (prev cur : State) :
  selectedMinutes cur = selectedMinutes prev ->
  running cur = running prev ->
  commit env prev cur = cur.
Proof.
  intros Hm Hr. unfold commit, settle, changedSelectedMinutes, changedRunning.
  rewrite Hm, Hr, Z.eqb_refl, Bool.eqb_reflx. reflexivity.
Qed.

Lemma cancelAnimationFrame_fields (h : option nat) (s : State) :
  selectedMinutes (cancelAnimationFrame h s) = selectedMinutes s /\
  running (cancelAnimationFrame h s) = running s.
Proof. destruct h; simpl; auto. Qed.

Lemma effectRunning_fields (env : Env) (r s : State) :
  selectedMinutes (effectRunning env r s) = selectedMinutes s /\
  running (effectRunning env r s) = running s.
Proof. unfold effectRunning. destruct (running r); simpl; auto. Qed.

Lemma effectsPass_selectedMinutes (env : Env) (prev cur : State) :
  selectedMinutes (effectsPass env prev cur) = selectedMinutes cur.
Proof.
  unfold effectsPass, cleanupRunning, effectSelectedMinutes.
  destruct (changedRunning prev cur), (running prev),
    (changedSelectedMinutes prev cur); simpl;
    repeat (rewrite ?(proj1 (effectRunning_fields _ _ _)),
                    ?(proj1 (cancelAnimationFrame_fields _ _)); simpl);
    reflexivity.
Qed.

Lemma effectsPass_running (env : Env) (prev cur : State) :
  changedSelectedMinutes prev cur = false ->
  running (effectsPass env prev cur) = running cur.
Proof.
  intros H. unfold effectsPass, cleanupRunning. rewrite H.
  destruct (changedRunning prev cur), (running prev); simpl;
    repeat (rewrite ?(proj2 (effectRunning_fields _ _ _)),
                    ?(proj2 (cancelAnimationFrame_fields _ _)); simpl);
    reflexivity.
Qed.

(** More fuel than two commits changes nothing: the render loop ends. *)
Lemma settle_stable (n : nat) (env : Env) (prev cur : State) :
  settle (2 + n) env prev cur = commit env prev cur.
Proof.
  unfold commit. simpl.
  destruct (changedSelectedMinutes prev cur || changedRunning prev cur);
    [ | reflexivity ].
  set (s1 := effectsPass env prev cur).
  assert (Hm : changedSelectedMinutes cur s1 = false).
  { unfold changedSelectedMinutes, s1.
    now rewrite effectsPass_selectedMinutes, Z.eqb_refl. }
  rewrite Hm. simpl.
  destruct (changedRunning cur s1); [ | reflexivity ].
  set (s2 := effectsPass env cur s1).
  assert (Hm2 : changedSelectedMinutes s1 s2 = false).
  { unfold changedSelectedMinutes, s2.
    now rewrite effectsPass_selectedMinutes, Z.eqb_refl. }
  assert (Hr2 : changedRunning s1 s2 = false).
  { unfold changedRunning, s2.
    now rewrite (effectsPass_running env cur s1 Hm), Bool.eqb_reflx. }
  destruct n; simpl; [ reflexivity | ].
  now rewrite Hm2, Hr2.
Qed.

(** Mounting leaves the initial hook values as they are. *)
Lemma mount_initialState (env : Env) : mount env = initialState.
Proof. reflexivity. Qed.

Lemma effectSelectedMinutes_fields (r s : State) :
  selectedMinutes (effectSelectedMinutes r s) = selectedMinutes s /\
  running (effectSelectedMinutes r s) = false.
Proof.
  unfold effectSelectedMinutes. cbv zeta.
  split; [ rewrite (proj1 (cancelAnimationFrame_fields _ _))
         | rewrite (proj2 (cancelAnimationFrame_fields _ _)) ]; reflexivity.
Qed.

Lemma effectRunning_idle (env : Env) (r s : State) :
  running r = false -> effectRunning env r s = s.
Proof. intros H. unfold effectRunning. now rewrite H. Qed.

(** A commit after [running] alone changed. *)
Lemma commit_running_changed (env : Env) (prev cur : State) :
  selectedMinutes cur = selectedMinutes prev ->
  running cur = negb (running prev) ->
  commit env prev cur
  = effectRunning env cur (if running prev then cleanupRunning cur else cur).
Proof.
  intros Hm Hr. unfold commit, settle.
  assert (C1 : changedSelectedMinutes prev cur = false).
  { unfold changedSelectedMinutes. now rewrite Hm, Z.eqb_refl. }
  assert (C2 : changedRunning prev cur = true).
  { unfold changedRunning. rewrite Hr. now destruct (running prev). }
  rewrite C1, C2. cbn [orb].
  assert (E : effectsPass env prev cur
              = effectRunning env cur
                  (if running prev then cleanupRunning cur else cur)).
  { unfold effectsPass. rewrite C1, C2. reflexivity. }
  rewrite E.
  set (s1 := effectRunning env cur _).
  assert (Hm1 : selectedMinutes s1 = selectedMinutes cur).
  { unfold s1. rewrite (proj1 (effectRunning_fields _ _ _)).
    destruct (running prev); [ apply cancelAnimationFrame_fields | reflexivity ]. }
  assert (Hr1 : running s1 = running cur).
  { unfold s1. rewrite (proj2 (effectRunning_fields _ _ _)).
    destruct (running prev); [ apply cancelAnimationFrame_fields | reflexivity ]. }
  unfold changedSelectedMinutes, changedRunning.
  now rewrite Hm1, Hr1, Z.eqb_refl, Bool.eqb_reflx.
Qed.

(** A commit after [selectedMinutes] alone changed. *)
Lemma commit_minutes_changed (env : Env) (prev cur : State) :
  selectedMinutes cur <> selectedMinutes prev ->
  running cur = running prev ->
  commit env prev cur
  = let s1 := effectSelectedMinutes cur cur in
    if running cur then cleanupRunning s1 else s1.
Proof.
  intros Hm Hr. unfold commit, settle.
  assert (C1 : changedSelectedMinutes prev cur = true).
  { unfold changedSelectedMinutes. apply negb_true_iff, Z.eqb_neq. congruence. }
  assert (C2 : changedRunning prev cur = false).
  { unfold changedRunning. now rewrite Hr, Bool.eqb_reflx. }
  rewrite C1, C2. cbn [orb].
  assert (E : effectsPass env prev cur = effectSelectedMinutes cur cur).
  { unfold effectsPass. now rewrite C1, C2. }
  rewrite E. cbv zeta.
  set (s1 := effectSelectedMinutes cur cur).
  destruct (effectSelectedMinutes_fields cur cur) as [Hm1 Hr1]. fold s1 in Hm1, Hr1.
  assert (C3 : changedSelectedMinutes cur s1 = false).
  { unfold changedSelectedMinutes. now rewrite Hm1, Z.eqb_refl. }
  assert (C4 : changedRunning cur s1 = running cur).
  { unfold changedRunning. rewrite Hr1. now destruct (running cur). }
  rewrite C3, C4. cbn [orb].
  destruct (running cur) eqn:R; [ | reflexivity ].
  unfold effectsPass. rewrite C3, C4, R. cbn [andb].
  apply effectRunning_idle. exact Hr1.
Qed.

Lemma setSelectedMinutes_eta (s : State) :
  setSelectedMinutes (selectedMinutes s) s = s.
Proof. now destruct s. Qed.

Lemma setFrames_eta (s : State) : setFrames (frames s) s = s.
Proof. now destruct s. Qed.

Lemma handle_ClickDuration_same (env : Env) (s : State) :
  handle env (ClickDuration (selectedMinutes s)) s = s.
Proof.
  unfold handle, handler. rewrite setSelectedMinutes_eta.
  now apply commit_same_deps.
Qed.

Lemma handle_ClickDuration_changed (env : Env) (d : Z) (s : State) :
  d <> selectedMinutes s ->
  handle env (ClickDuration d) s
  = let r := setSelectedMinutes d s in
    let s1 := effectSelectedMinutes r r in
    if running s then cleanupRunning s1 else s1.
Proof.
  intros H. unfold handle, handler.
  now rewrite commit_minutes_changed.
Qed.

Lemma handle_ClickBreak (env : Env) (b : Z) (s : State) :
  handle env (ClickBreak b) s = setBreakMinutes (Some b) s.
Proof. unfold handle. simpl. now apply commit_same_deps. Qed.

Lemma handle_ClickNoBreak (env : Env) (s : State) :
  handle env ClickNoBreak s = setBreakMinutes (Some 0) s.
Proof. unfold handle. simpl. now apply commit_same_deps. Qed.

Lemma handle_CelebrationTimeout (env : Env) (s : State) :
  handle env CelebrationTimeout s = celebrationTimeout s.
Proof.
  unfold handle. simpl. apply commit_same_deps;
    unfold celebrationTimeout; now destruct (timers s).
Qed.

(** Pause: the handler cancels the pending frame, then the cleanup of the
    effect cancels it once more. *)
Lemma handle_ClickStartStop_pause (env : Env) (s : State) :
  running s = true ->
  handle env ClickStartStop s
  = cleanupRunning (cancelAnimationFrame (rafRef s) (setRunning false s)).
Proof.
  intros H. unfold handle, handler, startStop. rewrite H.
  rewrite commit_running_changed.
  - rewrite H. apply effectRunning_idle.
    now rewrite (proj2 (cancelAnimationFrame_fields _ _)).
  - now rewrite (proj1 (cancelAnimationFrame_fields _ _)).
  - now rewrite (proj2 (cancelAnimationFrame_fields _ _)), H.
Qed.

(** Start or resume: the effect anchors the start time and asks for the
    first frame. *)
Lemma handle_ClickStartStop_start (env : Env) (s : State) :
  running s = false ->
  handle env ClickStartStop s
  = effectRunning env (setRunning true s) (setRunning true s).
Proof.
  intros H. unfold handle, handler, startStop. rewrite H.
  rewrite commit_running_changed; rewrite ?H; reflexivity.
Qed.

Lemma resetTimer_fields (s : State) :
  selectedMinutes (resetTimer s) = selectedMinutes s /\
  running (resetTimer s) = false.
Proof.
  unfold resetTimer. destruct s as [? ? ? ? ? ? ? ? ? raf ? ? ? ? ? ?]. fields.
  destruct raf; split; reflexivity.
Qed.

Lemma handle_ClickReset (env : Env) (s : State) :
  handle env ClickReset s
  = if running s then cleanupRunning (resetTimer s) else resetTimer s.
Proof.
  unfold handle, handler. destruct (resetTimer_fields s) as [Hm Hr].
  destruct (running s) eqn:R.
  - rewrite commit_running_changed; rewrite ?R, ?Hr; auto.
    now apply effectRunning_idle.
  - apply commit_same_deps; congruence.
Qed.

(** A frame while no request is pending does nothing. *)
Lemma handle_AnimationFrame_idle (env : Env) (now : Q) (s : State) :
  frames s = [] -> handle env (AnimationFrame now) s = s.
Proof.
  intros H. unfold handle, handler, animationFrame. rewrite H. simpl fold_left.
  rewrite <- H, setFrames_eta. now apply commit_same_deps.
Qed.

Lemma tick_selectedMinutes (now : Q) (s : State) :
  selectedMinutes (tick now s) = selectedMinutes s.
Proof.
  unfold tick. destruct s. fields. now destruct (Qle_bool _ _).
Qed.

Lemma handle_AnimationFrame_running (env : Env) (now : Q) (s : State) (h : nat) :
  running s = true -> frames s = [h] ->
  handle env (AnimationFrame now) s = tick now (setFrames [] s).
Proof.
  intros Hr Hf. unfold handle, handler, animationFrame. rewrite Hf.
  cbn [fold_left].
  assert (Ht : running (tick now (setFrames [] s))
               = negb (Qle_bool (inject_Z (totalSecondsRef s)) (elapsedAt now s))).
  { unfold tick, elapsedAt, startTimestamp. cbv zeta. destruct s.
    fields. 
    subst. destruct (Qle_bool _ _); reflexivity. }
  destruct (Qle_bool (inject_Z (totalSecondsRef s)) (elapsedAt now s)) eqn:E.
  - rewrite commit_running_changed.
    + rewrite Hr. rewrite effectRunning_idle by exact Ht.
      unfold tick. cbv zeta.
      clear Ht. destruct s as [? ? ? ? ? ? ? ? ? raf ? ? ? ? ? ?]. fields.
      unfold elapsedAt, startTimestamp in *. fields.
      rewrite E. unfold cleanupRunning. fields.
      destruct raf; reflexivity.
    + now rewrite tick_selectedMinutes.
    + now rewrite Hr.
  - apply commit_same_deps.
    + now rewrite tick_selectedMinutes.
    + now rewrite Hr.
Qed.

(** ** The task list *)

Lemma isFalsy_nil (v : JsString.t) : JsString.isFalsy v = true <-> v = [].
Proof. destruct v; simpl; split; congruence. Qed.

(** What [ClickAdd] does to the whole state. *)
Lemma handle_ClickAdd (env : Env) (s : State) :
  handle env ClickAdd s = addTask (dateNow env) s.
Proof.
  unfold handle. simpl. apply commit_same_deps;
    unfold addTask; destruct (JsString.isFalsy _); reflexivity.
Qed.

Lemma handle_ClickTask (env : Env) (i : Z) (s : State) :
  handle env (ClickTask i) s = toggleTask i s.
Proof. unfold handle. simpl. now apply commit_same_deps. Qed.

Lemma handle_ChangeNewTask (env : Env) (v : JsString.t) (s : State) :
  handle env (ChangeNewTask v) s = setNewTask v s.
Proof. unfold handle. simpl. now apply commit_same_deps. Qed.

(** C10: on first render, before any event, the task list holds exactly the
    two tasks (1, "Read article", not done) and (2, "Write report", not
    done), in this order: both as the initial hook value and after the
    component has mounted. *)
Theorem initial_tasks (env : Env) :
  tasks initialState =
    [ mkTask 1 (JsString.ofString "Read article") false;
      mkTask 2 (JsString.ofString "Write report") false ] /\
  tasks (mount env) = tasks initialState /\
  length (tasks (mount env)) = 2%nat.
Proof. repeat split. Qed.

(** C7: adding a task.  When the typed text is empty after trimming, the
    click on Add leaves the whole state, and so the task list, as it was
    (there is no error path); three spaces are such a text.  When the typed
    text is not empty after trimming, the new list is the old list followed
    by exactly one task, not done, whose text is the trimmed input. *)
Theorem addTask_spec (env : Env) (s : State) :
  (JsString.trim (newTask s) = [] -> handle env ClickAdd s = s) /\
  (JsString.trim (newTask s) <> [] ->
     exists task,
       tasks (handle env ClickAdd s) = tasks s ++ [task] /\
       done task = false /\
       text task = JsString.trim (newTask s) /\
       length (tasks (handle env ClickAdd s)) = S (length (tasks s)) /\
       firstn (length (tasks s)) (tasks (handle env ClickAdd s)) = tasks s) /\
  JsString.trim (JsString.ofString "   ") = [].
Proof.
  rewrite handle_ClickAdd. unfold addTask. repeat split.
  - intros H. apply isFalsy_nil in H. now rewrite H.
  - intros H. destruct (JsString.isFalsy _) eqn:E.
    + apply isFalsy_nil in E. contradiction.
    + eexists. simpl. repeat split.
      * rewrite length_app. simpl. lia.
      * rewrite firstn_app, Nat.sub_diag, firstn_all. simpl.
        now rewrite app_nil_r.
Qed.

(** The two inputs of the specification, typed into the initial page. *)
Lemma addTask_spec_witness :
  handle (mkEnv 0 1700000000000) ClickAdd
    (setNewTask (JsString.ofString "   ") initialState)
  = setNewTask (JsString.ofString "   ") initialState /\
  exists task,
    tasks (handle (mkEnv 0 1700000000000) ClickAdd
             (setNewTask (JsString.ofString " Write report ") initialState))
    = tasks initialState ++ [task] /\
    done task = false /\
    text task = JsString.ofString "Write report".
Proof.
  split.
  - apply (proj1 (addTask_spec (mkEnv 0 1700000000000)
                    (setNewTask (JsString.ofString "   ") initialState))).
    reflexivity.
  - destruct (proj1 (proj2 (addTask_spec (mkEnv 0 1700000000000)
              (setNewTask (JsString.ofString " Write report ") initialState))))
      as [task [H1 [H2 [H3 _]]]].
    + discriminate.
    + exists task. repeat split; assumption.
Defined.

Lemma toggleOne_id (i : Z) (task : Task) : id (toggleOne i task) = id task.
Proof. unfold toggleOne. now destruct (id task =? i). Qed.

Lemma toggleTask_ids (i : Z) (l : list Task) :
  map id (map (toggleOne i) l) = map id l.
Proof. rewrite map_map. apply map_ext. apply toggleOne_id. Qed.

(** C8: toggling by identifier.  The list keeps its length, and at every
    position the task keeps its identifier and its text; its done flag is
    negated when its identifier is the toggled one, and the task is unchanged
    otherwise.  Nothing but the task list changes in the state. *)
Theorem toggleTask_spec (env : Env) (i : Z) (s : State) :
  length (tasks (handle env (ClickTask i) s)) = length (tasks s) /\
  (forall k task, nth_error (tasks s) k = Some task ->
     exists task',
       nth_error (tasks (handle env (ClickTask i) s)) k = Some task' /\
       id task' = id task /\
       text task' = text task /\
       (id task = i -> done task' = negb (done task)) /\
       (id task <> i -> task' = task)) /\
  handle env (ClickTask i) s
    = setTasks (fun _ => tasks (handle env (ClickTask i) s)) s.
Proof.
  rewrite handle_ClickTask. unfold toggleTask. simpl. repeat split.
  - apply length_map.
  - intros k task H. exists (toggleOne i task). split.
    + rewrite nth_error_map, H. reflexivity.
    + unfold toggleOne. destruct (Z.eqb_spec (id task) i); simpl;
        repeat split; intros; congruence.
Qed.

(** Identifiers stay distinct as long as every [Date.now()] read by an add
    differs from the identifiers already in the list. *)
Lemma addTask_NoDup (now : Z) (s : State) :
  NoDup (map id (tasks s)) ->
  ~ In now (map id (tasks s)) ->
  NoDup (map id (tasks (addTask now s))).
Proof.
  intros Hnd Hin. unfold addTask. destruct (JsString.isFalsy _); [ exact Hnd | ].
  simpl. rewrite map_app. simpl.
  apply NoDup_incl_NoDup with (l := now :: map id (tasks s)).
  - now constructor.
  - rewrite length_app. simpl. lia.
  - intros x Hx. apply in_or_app. simpl in *. tauto.
Qed.

Lemma toggleTask_NoDup (i : Z) (s : State) :
  NoDup (map id (tasks s)) -> NoDup (map id (tasks (toggleTask i s))).
Proof. unfold toggleTask. simpl. now rewrite toggleTask_ids. Qed.

(** C9: the identifier of a new task is what [Date.now()] answers, so two
    adds within one millisecond give two tasks the same identifier: after
    the run [sameMillisecondAdds] from the mounted page, a state the
    component can be in, the identifiers are 1, 2, 1700000000000,
    1700000000000, which are not pairwise distinct, and one click on either
    new task toggles both. *)
Theorem addTask_ids_collide :
  let s := run sameMillisecondAdds (mount (mkEnv 0 0)) in
  reachable s /\
  map id (tasks s) = [1; 2; 1700000000000; 1700000000000] /\
  ~ NoDup (map id (tasks s)) /\
  map done (tasks (handle (mkEnv 0 0) (ClickTask 1700000000000) s))
    = [false; false; true; true].
Proof.
  assert (E : map id (tasks (run sameMillisecondAdds (mount (mkEnv 0 0))))
              = [1; 2; 1700000000000; 1700000000000]).
  { unfold run, sameMillisecondAdds. simpl fold_left.
    rewrite !handle_ClickAdd, !handle_ChangeNewTask. reflexivity. }
  cbv zeta. split; [ | split; [ | split ] ].
  - unfold run, sameMillisecondAdds. simpl fold_left.
    repeat (apply reachable_handle; [ | exact I ]). apply reachable_mount.
  - exact E.
  - rewrite E. intros H.
    inversion H as [ | ? ? _ H1 ]; subst.
    inversion H1 as [ | ? ? _ H2 ]; subst.
    inversion H2 as [ | ? ? H3 _ ]; subst.
    apply H3. now left.
  - unfold run, sameMillisecondAdds. simpl fold_left.
    rewrite handle_ClickTask, !handle_ClickAdd, !handle_ChangeNewTask.
    reflexivity.
Qed.

(** ** The curve sampler *)

Lemma nth_error_map_seq {A : Type} (f : nat -> A) (len i : nat) :
  (i < len)%nat -> nth_error (map f (seq 0 len)) i = Some (f i).
Proof.
  intros H. rewrite nth_error_map.
  rewrite (nth_error_nth' (seq 0 len) 0%nat) by now rewrite length_seq.
  now rewrite seq_nth.
Qed.

(** C6: the number of Gaussian peaks is 1 below 60 minutes, 2 from 60 up to
    (not including) 90 minutes, and 3 from 90 minutes on, and this is the
    number of Gaussians the sampler adds up.  The height of sample number i
    before normalisation is the decayed value of the sum y the inner loop
    leaves, and that loop, starting from 0, executes its assignment once
    (for peak 0) when D < 60, twice (peaks 0, 1) when 60 <= D < 90 and three
    times (peaks 0, 1, 2) when D >= 90; the curve the component gets has at
    position i that height divided by the maximum. *)
Theorem peaksFor_spec (D : Z) :
  (D < 60 -> Curve.peaksFor D = 1%nat) /\
  (60 <= D < 90 -> Curve.peaksFor D = 2%nat) /\
  (90 <= D -> Curve.peaksFor D = 3%nat) /\
  (forall samples i : nat,
     let tMax := Curve.tMaxOf D in
     let t := Curve.sampleTime tMax samples i in
     exists y,
       Curve.py (Curve.rawPoint D samples i) = Curve.decayed tMax t y /\
       y = Curve.sumGaussians tMax (Curve.peaksFor D) t /\
       (D < 60 -> y = Curve.addGaussian tMax 1 t 0 0) /\
       (60 <= D < 90 ->
        y = Curve.addGaussian tMax 2 t (Curve.addGaussian tMax 2 t 0 0) 1) /\
       (90 <= D ->
        y = Curve.addGaussian tMax 3 t
              (Curve.addGaussian tMax 3 t
                 (Curve.addGaussian tMax 3 t 0 0) 1) 2)) /\
  (forall i : nat, (i <= Curve.defaultSamples)%nat ->
     exists p,
       nth_error (Curve.sampleProductivityCurve D Curve.defaultSamples) i
       = Some p /\
       Curve.px p = Curve.px (Curve.rawPoint D Curve.defaultSamples i) /\
       Curve.py p
       = Curve.normalised
           (Curve.py (Curve.rawPoint D Curve.defaultSamples i))
           (Curve.Math_max
              (map Curve.py (Curve.rawPoints D Curve.defaultSamples)))).
Proof.
  assert (P1 : D < 60 -> Curve.peaksFor D = 1%nat).
  { intros H. unfold Curve.peaksFor.
    destruct (Z.leb_spec 90 D), (Z.leb_spec 60 D), (Z.leb_spec 30 D);
      try reflexivity; lia. }
  assert (P2 : 60 <= D < 90 -> Curve.peaksFor D = 2%nat).
  { intros H. unfold Curve.peaksFor.
    destruct (Z.leb_spec 90 D), (Z.leb_spec 60 D); try reflexivity; lia. }
  assert (P3 : 90 <= D -> Curve.peaksFor D = 3%nat).
  { intros H. unfold Curve.peaksFor.
    destruct (Z.leb_spec 90 D); try reflexivity; lia. }
  split; [ exact P1 | ]. split; [ exact P2 | ]. split; [ exact P3 | ].
  split.
  - intros samples i tMax t.
    exists (Curve.sumGaussians tMax (Curve.peaksFor D) t).
    split; [ reflexivity | ]. split; [ reflexivity | ].
    split; [ | split ]; intros H.
    + now rewrite (P1 H).
    + now rewrite (P2 H).
    + now rewrite (P3 H).
  - intros i Hi.
    exists (Curve.mkPoint
              (Curve.px (Curve.rawPoint D Curve.defaultSamples i))
              (Curve.py (Curve.rawPoint D Curve.defaultSamples i)
               / Curve.Math_max
                   (map Curve.py
                      (Curve.rawPoints D Curve.defaultSamples)))).
    split; [ | split; reflexivity ].
    unfold Curve.sampleProductivityCurve, Curve.rawPoints.
    rewrite map_map. rewrite nth_error_map_seq by lia. reflexivity.
Qed.

(** The three ranges, at 30, 60 and 120 minutes, and the middle sample of
    the 60-minute curve, where the loop adds two Gaussians. *)
Lemma peaksFor_spec_witness :
  Curve.peaksFor 30 = 1%nat /\ Curve.peaksFor 60 = 2%nat /\
  Curve.peaksFor 120 = 3%nat /\
  exists y,
    Curve.py (Curve.rawPoint 60 200 100)
    = Curve.decayed (Curve.tMaxOf 60)
        (Curve.sampleTime (Curve.tMaxOf 60) 200 100) y /\
    y = Curve.addGaussian (Curve.tMaxOf 60) 2
          (Curve.sampleTime (Curve.tMaxOf 60) 200 100)
          (Curve.addGaussian (Curve.tMaxOf 60) 2
             (Curve.sampleTime (Curve.tMaxOf 60) 200 100) 0 0) 1.
Proof.
  split; [ | split; [ | split ] ].
  - apply (proj1 (peaksFor_spec 30)). lia.
  - apply (proj1 (proj2 (peaksFor_spec 60))). lia.
  - apply (proj1 (proj2 (proj2 (peaksFor_spec 120)))). lia.
  - destruct (proj1 (proj2 (proj2 (proj2 (peaksFor_spec 60))))
                200%nat 100%nat) as [y [H1 [_ [_ [H4 _]]]]].
    exists y. split; [ exact H1 | ]. apply H4. lia.
Defined.

Section CurveMaximum.
Local Open Scope R_scope.
Import Curve.

(** [Math.max] of a non-empty list is one of its elements and bounds them. *)
Lemma fold_Rmax_ge (l : list R) (a : R) :
  a <= fold_left Rmax l a /\ forall y, In y l -> y <= fold_left Rmax l a.
Proof.
  revert a. induction l as [ | b l IH ]; intros a; simpl.
  - split; [ lra | tauto ].
  - destruct (IH (Rmax a b)) as [H1 H2]. split.
    + pose proof (Rmax_l a b). lra.
    + intros y [ <- | Hy ]; [ | auto ].
      pose proof (Rmax_r a b). lra.
Qed.

Lemma fold_Rmax_in (l : list R) (a : R) :
  fold_left Rmax l a = a \/ In (fold_left Rmax l a) l.
Proof.
  revert a. induction l as [ | b l IH ]; intros a; simpl.
  - now left.
  - destruct (IH (Rmax a b)) as [H | H]; [ | tauto ].
    rewrite H. destruct (Rle_dec a b) as [E | E].
    + rewrite Rmax_right by assumption. tauto.
    + rewrite Rmax_left by lra. tauto.
Qed.

Lemma Math_max_in (ys : list R) : ys <> [] -> In (Math_max ys) ys.
Proof.
  destruct ys as [ | y rest ]; [ congruence | intros _ ]. simpl.
  destruct (fold_Rmax_in rest y) as [H | H]; [ left; now rewrite H | now right ].
Qed.

Lemma Math_max_ge (ys : list R) (y : R) : In y ys -> y <= Math_max ys.
Proof.
  destruct ys as [ | y0 rest ]; simpl; [ tauto | ].
  destruct (fold_Rmax_ge rest y0) as [H1 H2].
  intros [ <- | H ]; auto.
Qed.

(** Dividing by a positive number commutes with [Math.max]. *)
Lemma fold_Rmax_div (m : R) (l : list R) (a : R) :
  0 < m ->
  fold_left Rmax (map (fun y => y / m) l) (a / m) = fold_left Rmax l a / m.
Proof.
  intros Hm. revert a. induction l as [ | b l IH ]; intros a; simpl.
  - reflexivity.
  - rewrite <- IH. f_equal.
    assert (Hi : 0 < / m) by now apply Rinv_0_lt_compat.
    unfold Rdiv. destruct (Rle_dec a b) as [Hab | Hab].
    + rewrite (Rmax_right a b) by assumption.
      apply Rmax_right. now apply Rmult_le_compat_r; [ lra | ].
    + rewrite (Rmax_left a b) by lra.
      apply Rmax_left. apply Rmult_le_compat_r; lra.
Qed.

Lemma Math_max_div (m : R) (ys : list R) :
  0 < m -> ys <> [] ->
  Math_max (map (fun y => y / m) ys) = Math_max ys / m.
Proof.
  intros Hm. destruct ys as [ | y rest ]; [ congruence | intros _ ]. simpl.
  now apply fold_Rmax_div.
Qed.

(** A sum of Gaussians over at least one peak is positive. *)
Lemma fold_gaussians_pos (g : nat -> R) (l : list nat) (acc : R) :
  (forall p, 0 < g p) -> 0 <= acc ->
  acc <= fold_left (fun y p => y + g p) l acc /\
  (l <> [] -> 0 < fold_left (fun y p => y + g p) l acc).
Proof.
  intros Hg. revert acc. induction l as [ | p l IH ]; intros acc Hacc; simpl.
  - split; [ lra | congruence ].
  - pose proof (Hg p) as Hp.
    destruct (IH (acc + g p)) as [H1 _]; [ lra | ].
    split; [ lra | intros _; lra ].
Qed.

Lemma peaksFor_pos (minutes : Z) : (1 <= peaksFor minutes)%nat.
Proof.
  unfold peaksFor.
  destruct (90 <=? minutes)%Z, (60 <=? minutes)%Z, (30 <=? minutes)%Z; lia.
Qed.

Lemma sumGaussians_pos (tMax : R) (minutes : Z) (t : R) :
  0 < sumGaussians tMax (peaksFor minutes) t.
Proof.
  unfold sumGaussians.
  apply (fold_gaussians_pos (gaussian tMax (peaksFor minutes) t)).
  - intros p. unfold gaussian. apply exp_pos.
  - lra.
  - pose proof (peaksFor_pos minutes) as H.
    destruct (peaksFor minutes); [ lia | simpl; congruence ].
Qed.

(** Before normalisation every sample is positive. *)
Lemma rawPoint_pos (minutes : Z) (samples i : nat) :
  (0 < minutes)%Z -> (0 < samples)%nat -> (i <= samples)%nat ->
  0 < py (rawPoint minutes samples i).
Proof.
  intros Hm Hs Hi. unfold rawPoint. cbv zeta. simpl py.
  apply Rmult_lt_0_compat; [ apply sumGaussians_pos | ].
  assert (HM : 0 < IZR minutes * 60).
  { apply IZR_lt in Hm. lra. }
  assert (HS : 0 < INR samples) by now apply lt_0_INR.
  assert (HI : 0 <= INR i <= INR samples).
  { split; [ apply pos_INR | now apply le_INR ]. }
  replace (INR i / INR samples * (IZR minutes * 60) / (IZR minutes * 60))
    with (INR i / INR samples) by (field; lra).
  assert (INR i / INR samples <= 1).
  { apply Rmult_le_reg_r with (r := INR samples); [ assumption | ].
    unfold Rdiv. rewrite Rmult_assoc, Rinv_l by lra. lra. }
  lra.
Qed.

Lemma rawPoints_length (minutes : Z) (samples : nat) :
  length (rawPoints minutes samples) = S samples.
Proof. unfold rawPoints. now rewrite length_map, length_seq. Qed.

Lemma rawPoints_pos (minutes : Z) (samples : nat) (y : R) :
  (0 < minutes)%Z -> (0 < samples)%nat ->
  In y (map py (rawPoints minutes samples)) -> 0 < y.
Proof.
  intros Hm Hs Hy. unfold rawPoints in Hy. rewrite map_map in Hy.
  apply in_map_iff in Hy. destruct Hy as [i [<- Hi]].
  apply in_seq in Hi. apply rawPoint_pos; auto; lia.
Qed.

Lemma rawPoints_ys_nonempty (minutes : Z) (samples : nat) :
  map py (rawPoints minutes samples) <> [].
Proof.
  intros H. apply (f_equal (@length R)) in H.
  rewrite length_map, rawPoints_length in H. discriminate.
Qed.

(** The normalised heights are the raw heights over their maximum. *)
Lemma sampleProductivityCurve_ys (minutes : Z) (samples : nat) :
  map py (sampleProductivityCurve minutes samples)
  = map (fun y => y / Math_max (map py (rawPoints minutes samples)))
      (map py (rawPoints minutes samples)).
Proof. unfold sampleProductivityCurve. now rewrite !map_map. Qed.

(** For a positive duration the largest sample of the curve is exactly 1,
    and no sample is above it or at or below 0. *)
Lemma sampleProductivityCurve_max (minutes : Z) (samples : nat) :
  (0 < minutes)%Z -> (0 < samples)%nat ->
  Math_max (map py (sampleProductivityCurve minutes samples)) = 1 /\
  forall p, In p (sampleProductivityCurve minutes samples) -> 0 < py p <= 1.
Proof.
  intros Hm Hs.
  pose proof (rawPoints_ys_nonempty minutes samples) as Hne.
  assert (Hmax : 0 < Math_max (map py (rawPoints minutes samples))).
  { apply (rawPoints_pos minutes samples); auto. now apply Math_max_in. }
  assert (E : Math_max (map py (sampleProductivityCurve minutes samples)) = 1).
  { rewrite sampleProductivityCurve_ys, Math_max_div by assumption.
    field. lra. }
  split; [ exact E | ].
  intros p Hp. split.
  - unfold sampleProductivityCurve in Hp. apply in_map_iff in Hp.
    destruct Hp as [q [<- Hq]]. simpl.
    apply Rdiv_lt_0_compat; [ | assumption ].
    apply (rawPoints_pos minutes samples); auto. now apply in_map.
  - rewrite <- E. apply Math_max_ge. now apply in_map.
Qed.

End CurveMaximum.

Lemma DURATIONS_pos (D : Z) : In D DURATIONS -> 0 < D.
Proof. unfold DURATIONS. simpl. intros H. lia. Qed.

(** C5: for every supported duration, two calls of the sampler with equal
    durations return the same sequence of 201 points (the function reads
    nothing but its arguments), and the largest y-value of the returned
    samples is exactly 1. *)
Theorem sampleProductivityCurve_deterministic_max1 (D D' : Z) :
  In D DURATIONS -> D' = D ->
  Curve.sampleProductivityCurve D Curve.defaultSamples
    = Curve.sampleProductivityCurve D' Curve.defaultSamples /\
  length (Curve.sampleProductivityCurve D Curve.defaultSamples) = 201%nat /\
  Curve.Math_max
    (map Curve.py (Curve.sampleProductivityCurve D Curve.defaultSamples)) = 1%R.
Proof.
  intros HD ->. split; [ reflexivity | split ].
  - unfold Curve.sampleProductivityCurve.
    now rewrite length_map, rawPoints_length.
  - apply sampleProductivityCurve_max.
    + now apply DURATIONS_pos.
    + unfold Curve.defaultSamples. lia.
Qed.

Lemma sampleProductivityCurve_deterministic_max1_witness :
  Curve.Math_max
    (map Curve.py (Curve.sampleProductivityCurve 30 Curve.defaultSamples)) = 1%R.
Proof.
  apply (sampleProductivityCurve_deterministic_max1 30 30).
  - unfold DURATIONS. simpl. tauto.
  - reflexivity.
Defined.

(** ** The timer *)

Lemma remainingSeconds_zero_elapsed (total : Z) :
  0 <= total -> remainingSeconds total 0 = total.
Proof.
  intros H. unfold remainingSeconds.
  rewrite (Qceiling_comp (inject_Z total - 0) (inject_Z total)) by ring.
  rewrite Qceiling_Z. lia.
Qed.

Lemma remainingSeconds_at_total (total : Z) :
  remainingSeconds total (inject_Z total) = 0.
Proof.
  unfold remainingSeconds.
  now rewrite (Qceiling_comp (inject_Z total - inject_Z total) 0) by ring.
Qed.

Lemma remove_single (h : nat) : remove Nat.eq_dec h [h] = [].
Proof. simpl. destruct (Nat.eq_dec h h); congruence. Qed.

Lemma Inv_initialState : Inv initialState.
Proof.
  constructor; try reflexivity; try discriminate.
  unfold DURATIONS. simpl. tauto.
Qed.

Lemma DURATIONS_total_nonneg (d : Z) : In d DURATIONS -> 0 <= d * 60.
Proof. intros H. apply DURATIONS_pos in H. lia. Qed.

Lemma inject_Z_nonneg (z : Z) : 0 <= z -> (0 <= inject_Z z)%Q.
Proof. intros H. change 0%Q with (inject_Z 0). now rewrite <- Zle_Qle. Qed.

Lemma Inv_ClickDuration (env : Env) (d : Z) (s : State) :
  Inv s -> In d DURATIONS -> Inv (handle env (ClickDuration d) s).
Proof.
  intros [Hd Ht Hlo Hhi Hl Hc Hloop] HD.
  destruct (Z.eq_dec d (selectedMinutes s)) as [-> | Hne].
  - rewrite handle_ClickDuration_same. now constructor.
  - rewrite handle_ClickDuration_changed by assumption.
    unfold effectSelectedMinutes, loopInv in *. open_state s. fields.
    pose proof (DURATIONS_total_nonneg d HD) as Hnn.
    destruct run.
    + destruct Hloop as [h [-> ->]]. fields. rewrite remove_single.
      constructor; fields; try easy.
      * now apply inject_Z_nonneg.
      * now rewrite remainingSeconds_zero_elapsed.
    + subst frs. destruct raf; fields; constructor; fields; try easy;
        try (now apply inject_Z_nonneg);
        now rewrite remainingSeconds_zero_elapsed.
Qed.

Lemma Inv_ClickStartStop (env : Env) (s : State) :
  Inv s -> Inv (handle env ClickStartStop s).
Proof.
  intros [Hd Ht Hlo Hhi Hl Hc Hloop].
  destruct (running s) eqn:R.
  - rewrite handle_ClickStartStop_pause by assumption.
    unfold loopInv in *. open_state s. fields. subst run.
    destruct Hloop as [h [-> ->]]. fields. rewrite remove_single.
    simpl remove. now constructor.
  - rewrite handle_ClickStartStop_start by assumption.
    unfold effectRunning, loopInv in *. open_state s. fields. subst run frs.
    constructor; fields; try easy. now exists nh.
Qed.

Lemma Inv_ClickReset (env : Env) (s : State) :
  Inv s -> Inv (handle env ClickReset s).
Proof.
  intros [Hd Ht Hlo Hhi Hl Hc Hloop]. rewrite handle_ClickReset.
  pose proof (DURATIONS_total_nonneg _ Hd) as Hnn.
  unfold resetTimer, loopInv in *. open_state s. fields. subst total.
  destruct run.
  - destruct Hloop as [h [-> ->]]. fields. rewrite remove_single.
    simpl remove. constructor; fields; try easy.
    + now apply inject_Z_nonneg.
    + now rewrite remainingSeconds_zero_elapsed.
  - subst frs. destruct raf; fields; simpl remove; constructor; fields;
      try easy; try (now apply inject_Z_nonneg);
      now rewrite remainingSeconds_zero_elapsed.
Qed.

Lemma Qle_bool_false (a b : Q) : Qle_bool a b = false -> (b < a)%Q.
Proof.
  intros H. apply Qnot_le_lt. intros Hle.
  apply Qle_bool_iff in Hle. congruence.
Qed.

Lemma Inv_AnimationFrame (env : Env) (now : Q) (s : State) :
  Inv s -> Inv (handle env (AnimationFrame now) s).
Proof.
  intros HI. pose proof HI as [Hd Ht Hlo Hhi Hl Hc Hloop].
  unfold loopInv in Hloop. destruct (running s) eqn:R.
  - destruct Hloop as [h [Hraf Hf]].
    rewrite (handle_AnimationFrame_running env now s h R Hf).
    pose proof (DURATIONS_total_nonneg _ Hd) as Hnn.
    unfold tick, elapsedAt, startTimestamp, loopInv in *.
    open_state s. fields. subst total.
    destruct (Qle_bool _ _) eqn:E; fields.
    + constructor; fields; try easy.
      * now apply inject_Z_nonneg.
      * apply Qle_refl.
      * now rewrite remainingSeconds_at_total.
    + constructor; fields; try easy.
      * apply Q.le_max_l.
      * apply Qlt_le_weak. now apply Qle_bool_false.
      * unfold loopInv. fields. subst run. now exists nh.
  - now rewrite handle_AnimationFrame_idle.
Qed.

Lemma Inv_handle (env : Env) (e : Event) (s : State) :
  Inv s -> offered s e -> Inv (handle env e s).
Proof.
  intros HI Ho. destruct e.
  - now apply Inv_ClickDuration.
  - rewrite handle_ClickBreak. destruct HI. open_state s. now constructor.
  - rewrite handle_ClickNoBreak. destruct HI. open_state s. now constructor.
  - now apply Inv_ClickStartStop.
  - now apply Inv_ClickReset.
  - rewrite handle_ChangeNewTask. destruct HI. open_state s. now constructor.
  - rewrite handle_ClickAdd. unfold addTask.
    destruct (JsString.isFalsy _); [ assumption | ].
    destruct HI. open_state s. now constructor.
  - rewrite handle_ClickTask. destruct HI. open_state s. now constructor.
  - now apply Inv_AnimationFrame.
  - rewrite handle_CelebrationTimeout. unfold celebrationTimeout.
    destruct (timers s) eqn:T; [ assumption | ].
    destruct HI. open_state s. now constructor.
Qed.

(** Every state the component can be in satisfies the invariant. *)
Lemma reachable_Inv (s : State) : reachable s -> Inv s.
Proof.
  induction 1 as [ env | env e s _ IH Ho ].
  - rewrite mount_initialState. apply Inv_initialState.
  - now apply Inv_handle.
Qed.

(** The displayed value as a function of total and elapsed time. *)
Lemma remainingSeconds_spec (total : Z) (e : Q) :
  0 <= remainingSeconds total e /\
  (inject_Z total - e <= inject_Z (remainingSeconds total e))%Q /\
  (0 < remainingSeconds total e ->
     (inject_Z (remainingSeconds total e) < inject_Z total - e + 1)%Q) /\
  (remainingSeconds total e = 0 <-> (inject_Z total <= e)%Q).
Proof.
  unfold remainingSeconds. set (x := (inject_Z total - e)%Q).
  pose proof (Qle_ceiling x) as Hle. pose proof (Qceiling_lt x) as Hlt.
  assert (Hx : (x <= 0)%Q <-> (inject_Z total <= e)%Q).
  { unfold x. split; intros H.
    - apply Qplus_le_l with (z := (- e)%Q). now rewrite Qplus_opp_r.
    - apply Qplus_le_l with (z := (- e)%Q) in H. now rewrite Qplus_opp_r in H. }
  assert (Hc : Qceiling x <= 0 <-> (x <= 0)%Q).
  { split; intros H.
    - apply Qle_trans with (y := inject_Z (Qceiling x)); [ assumption | ].
      change 0%Q with (inject_Z 0). now rewrite <- Zle_Qle.
    - change 0 with (Qceiling 0). now apply Qceiling_resp_le. }
  repeat split.
  - lia.
  - apply Qle_trans with (y := inject_Z (Qceiling x)); [ assumption | ].
    rewrite <- Zle_Qle. lia.
  - intros Hpos. rewrite Z.max_r by lia.
    apply Qplus_lt_l with (z := (- (1))%Q).
    rewrite <- Qplus_assoc, Qplus_opp_r, Qplus_0_r.
    unfold Z.sub in Hlt. rewrite inject_Z_plus in Hlt. exact Hlt.
  - intros H. apply Hx, Hc. lia.
  - intros H. apply Hx, Hc in H. lia.
Qed.

Lemma Inv_idle (s : State) : Inv s -> running s = false -> idle s.
Proof.
  intros [_ _ _ _ _ _ Hloop] R. unfold loopInv in Hloop. rewrite R in Hloop.
  now split.
Qed.

(** While idle, only a click on Start can set the loop going; every other
    event leaves the timer idle and the session counter as it is. *)
Lemma idle_handle (env : Env) (e : Event) (s : State) :
  idle s -> e <> ClickStartStop ->
  idle (handle env e s) /\
  sessionsCompleted (handle env e s) = sessionsCompleted s.
Proof.
  intros [R F] He. destruct e; try congruence.
  - destruct (Z.eq_dec d (selectedMinutes s)) as [-> | Hne].
    + rewrite handle_ClickDuration_same. now repeat split.
    + rewrite handle_ClickDuration_changed by assumption.
      unfold idle, effectSelectedMinutes. open_state s. fields. subst.
      destruct raf; fields; now repeat split.
  - rewrite handle_ClickBreak. unfold idle. open_state s. now fields.
  - rewrite handle_ClickNoBreak. unfold idle. open_state s. now fields.
  - rewrite handle_ClickReset. unfold idle, resetTimer.
    open_state s. fields. subst. destruct raf; fields; now repeat split.
  - rewrite handle_ChangeNewTask. unfold idle. open_state s. now fields.
  - rewrite handle_ClickAdd. unfold addTask, idle.
    destruct (JsString.isFalsy _); [ now repeat split | ].
    open_state s. now fields.
  - rewrite handle_ClickTask. unfold idle. open_state s. now fields.
  - rewrite handle_AnimationFrame_idle by assumption. now repeat split.
  - rewrite handle_CelebrationTimeout. unfold celebrationTimeout, idle.
    destruct (timers s) eqn:T; [ now repeat split | ].
    open_state s. now fields.
Qed.

Lemma idle_run (evs : list (Env * Event)) (s : State) :
  idle s -> Forall (fun ee => snd ee <> ClickStartStop) evs ->
  idle (run evs s) /\ sessionsCompleted (run evs s) = sessionsCompleted s.
Proof.
  intros Hi Hf. revert s Hi. induction Hf as [ | [env e] evs He _ IH ];
    intros s Hi.
  - now split.
  - simpl in He. destruct (idle_handle env e s Hi He) as [Hi' Hs'].
    destruct (IH _ Hi') as [Hi'' Hs''].
    split; [ exact Hi'' | ]. unfold run in *. simpl. congruence.
Qed.

Lemma framesOnly_idle (l : list (Env * Q)) (s : State) :
  frames s = [] -> run (framesOnly l) s = s.
Proof.
  intros H. induction l as [ | [env t] l IH ]; [ reflexivity | ].
  unfold run, framesOnly in *. simpl.
  now rewrite handle_AnimationFrame_idle.
Qed.

(** The resumed anchor makes the next reading continue from [e]. *)
Lemma resumed_reading (e p now : Q) :
  (0 <= e)%Q -> (p <= now)%Q ->
  (Qmax 0 ((now - (p - e * 1000)) / 1000) == e + (now - p) / 1000)%Q.
Proof.
  intros He Hp.
  assert (E : ((now - (p - e * 1000)) / 1000 == e + (now - p) / 1000)%Q)
    by field.
  rewrite E. apply Q.max_r.
  assert (0 <= (now - p) / 1000)%Q.
  { apply Qle_shift_div_l; [ reflexivity | ].
    rewrite Qmult_0_l. apply Qplus_le_l with (z := p).
    now ring_simplify. }
  change 0%Q with (0 + 0)%Q. now apply Qplus_le_compat.
Qed.

(** A frame before the total is reached: the reading is stored and the
    next frame is requested. *)
Lemma frame_continue (env : Env) (now : Q) (s : State) (h : nat) :
  running s = true -> frames s = [h] ->
  Qle_bool (inject_Z (totalSecondsRef s)) (elapsedAt now s) = false ->
  running (handle env (AnimationFrame now) s) = true /\
  elapsed (handle env (AnimationFrame now) s) = elapsedAt now s /\
  secondsLeft (handle env (AnimationFrame now) s)
    = remainingSeconds (totalSecondsRef s) (elapsedAt now s) /\
  sessionsCompleted (handle env (AnimationFrame now) s)
    = sessionsCompleted s /\
  frames (handle env (AnimationFrame now) s) = [nextHandle s] /\
  rafRef (handle env (AnimationFrame now) s) = Some (nextHandle s).
Proof.
  intros R F E. rewrite (handle_AnimationFrame_running env now s h R F).
  clear F. unfold tick, elapsedAt, startTimestamp in *.
  open_state s. fields. rewrite E. fields. now repeat split.
Qed.

(** A frame at or after the total: the run is finalised and no frame is
    requested. *)
Lemma frame_complete (env : Env) (now : Q) (s : State) (h : nat) :
  running s = true -> frames s = [h] ->
  Qle_bool (inject_Z (totalSecondsRef s)) (elapsedAt now s) = true ->
  running (handle env (AnimationFrame now) s) = false /\
  elapsed (handle env (AnimationFrame now) s) = inject_Z (totalSecondsRef s) /\
  totalSecondsRef (handle env (AnimationFrame now) s) = totalSecondsRef s /\
  secondsLeft (handle env (AnimationFrame now) s) = 0 /\
  sessionsCompleted (handle env (AnimationFrame now) s)
    = sessionsCompleted s + 1 /\
  celebrate (handle env (AnimationFrame now) s) = true /\
  frames (handle env (AnimationFrame now) s) = [].
Proof.
  intros R F E. rewrite (handle_AnimationFrame_running env now s h R F).
  clear F. unfold tick, elapsedAt, startTimestamp in *.
  open_state s. fields. rewrite E. fields. now repeat split.
Qed.

Lemma reachable_running (s : State) :
  reachable s -> running s = true ->
  exists h, rafRef s = Some h /\ frames s = [h].
Proof.
  intros H R. apply reachable_Inv in H. destruct H as [_ _ _ _ _ _ Hloop].
  unfold loopInv in Hloop. now rewrite R in Hloop.
Qed.

Lemma runningState_reachable : reachable runningState.
Proof.
  unfold runningState. apply reachable_handle; [ | exact I ].
  apply reachable_handle; [ apply reachable_mount | ].
  unfold offered, DURATIONS. simpl. tauto.
Qed.

Lemma midRunState_reachable : reachable midRunState.
Proof.
  unfold midRunState.
  apply reachable_handle; [ apply runningState_reachable | exact I ].
Qed.

(** The example state: 1.5 of 300 seconds have elapsed, 299 are shown. *)
Example midRunState_values :
  running midRunState = true /\ totalSecondsRef midRunState = 300 /\
  (elapsed midRunState == 3 # 2)%Q /\ secondsLeft midRunState = 299 /\
  sessionsCompleted midRunState = 0.
Proof. repeat split. Qed.

(** C1: when a frame finds the elapsed time at or beyond the total while the
    timer runs, the state after that frame has running false, elapsed equal
    to the total, 0 remaining seconds and the session counter one higher;
    no frame request is left pending, and whatever events follow, short of a
    new click on Start, the counter keeps that value. *)
Theorem completion_once (env : Env) (now : Q) (s : State) :
  reachable s -> running s = true ->
  (inject_Z (totalSecondsRef s) <= elapsedAt now s)%Q ->
  let s' := handle env (AnimationFrame now) s in
  running s' = false /\
  elapsed s' = inject_Z (totalSecondsRef s) /\
  totalSecondsRef s' = totalSecondsRef s /\
  secondsLeft s' = 0 /\
  sessionsCompleted s' = sessionsCompleted s + 1 /\
  frames s' = [] /\
  forall evs, Forall (fun ee => snd ee <> ClickStartStop) evs ->
    sessionsCompleted (run evs s') = sessionsCompleted s + 1.
Proof.
  intros Hreach R Hdone s'.
  destruct (reachable_running s Hreach R) as [h [_ Hf]].
  apply Qle_bool_iff in Hdone.
  destruct (frame_complete env now s h R Hf Hdone)
    as [P1 [P2 [P3 [P4 [P5 [_ P7]]]]]].
  fold s' in P1, P2, P3, P4, P5, P7.
  split; [ exact P1 | ]. split; [ exact P2 | ]. split; [ exact P3 | ].
  split; [ exact P4 | ]. split; [ exact P5 | ]. split; [ exact P7 | ].
  intros evs Hevs.
  destruct (idle_run evs s' (conj P1 P7) Hevs) as [_ Hs]. congruence.
Qed.

(** The 5-minute run of [midRunState], with a frame 300 seconds after the
    start. *)
Lemma completion_once_witness :
  sessionsCompleted
    (handle (mkEnv 301000 0) (AnimationFrame 301000) midRunState) = 1 /\
  running (handle (mkEnv 301000 0) (AnimationFrame 301000) midRunState)
    = false.
Proof.
  destruct (completion_once (mkEnv 301000 0) 301000 midRunState)
    as [H1 [_ [_ [_ [H5 _]]]]].
  - apply midRunState_reachable.
  - reflexivity.
  - vm_compute. discriminate.
  - split; [ exact H5 | exact H1 ].
Defined.

(** ** The arithmetic of the machine *)

Section DoubleFacts.
Import Double.
Local Open Scope Q_scope.


Lemma pow2_pos (k : Z) : 0 < pow2 k.
Proof. apply Qpower_0_lt. reflexivity. Qed.

Lemma pow2_add (a b : Z) : pow2 (a + b) == pow2 a * pow2 b.
Proof. apply Qpower_plus. discriminate. Qed.

Lemma pow2_sub (a b : Z) : pow2 (a - b) == pow2 a / pow2 b.
Proof. apply Qpower_minus. discriminate. Qed.

Lemma pow2_le (a b : Z) : (a <= b)%Z -> pow2 a <= pow2 b.
Proof. intros H. apply Qpower_le_compat_l; [ exact H | discriminate ]. Qed.

Lemma pow2_lt (a b : Z) : (a < b)%Z -> pow2 a < pow2 b.
Proof. intros H. apply Qpower_lt_compat_l; [ exact H | reflexivity ]. Qed.

Lemma pow2_lt_inv (a b : Z) : pow2 a < pow2 b -> (a < b)%Z.
Proof. intros H. apply (Qpower_lt_compat_l_inv 2); [ exact H | reflexivity ]. Qed.

Lemma pow2_Z (k : Z) : (0 <= k)%Z -> pow2 k == inject_Z (2 ^ k).
Proof. intros H. unfold pow2. now rewrite Zpower_Qpower. Qed.

(** The exponent found by [expo] is the binary exponent. *)
Lemma expo_spec (x : Q) :
  0 < x -> pow2 (expo x) <= x /\ x < pow2 (expo x + 1).
Proof.
  intros Hx. destruct x as [n d]. unfold expo. cbn [Qnum Qden].
  assert (Hn : (0 < n)%Z).
  { unfold Qlt in Hx. simpl in Hx. lia. }
  set (a := Z.log2 n). set (b := Z.log2 (Zpos d)).
  destruct (Z.log2_spec n Hn) as [Ha1 Ha2]. fold a in Ha1, Ha2.
  destruct (Z.log2_spec (Zpos d) (Pos2Z.is_pos d)) as [Hb1 Hb2].
  fold b in Hb1, Hb2.
  assert (Ha0 : (0 <= a)%Z) by apply Z.log2_nonneg.
  assert (Hb0 : (0 <= b)%Z) by apply Z.log2_nonneg.
  assert (Lo : pow2 (a - b - 1) < n # d).
  { replace (a - b - 1)%Z with (a - (b + 1))%Z by ring.
    rewrite pow2_sub, (pow2_Z a), (pow2_Z (b + 1)) by lia.
    apply Qlt_shift_div_r.
    - change 0 with (inject_Z 0). rewrite <- Zlt_Qlt. lia.
    - unfold Qlt, Qmult, inject_Z. simpl. nia. }
  assert (Hi : n # d < pow2 (a - b + 1)).
  { replace (a - b + 1)%Z with ((a + 1) - b)%Z by ring.
    rewrite pow2_sub, (pow2_Z (a + 1)), (pow2_Z b) by lia.
    apply Qlt_shift_div_l.
    - change 0 with (inject_Z 0). rewrite <- Zlt_Qlt. lia.
    - unfold Qlt, Qmult, inject_Z. simpl. nia. }
  destruct (Qle_bool (pow2 (a - b)) (n # d)) eqn:E.
  - apply Qle_bool_iff in E. split; assumption.
  - replace (a - b - 1 + 1)%Z with (a - b)%Z by ring.
    split; [ now apply Qlt_le_weak | ].
    apply Qnot_le_lt. intros H. apply Qle_bool_iff in H. congruence.
Qed.

(** Only one exponent fits. *)
Lemma expo_unique (x : Q) (e : Z) :
  0 < x -> pow2 e <= x -> x < pow2 (e + 1) -> expo x = e.
Proof.
  intros Hx H1 H2. destruct (expo_spec x Hx) as [S1 S2].
  assert (A : (expo x < e + 1)%Z).
  { apply pow2_lt_inv. eapply Qle_lt_trans; eassumption. }
  assert (B : (e < expo x + 1)%Z).
  { apply pow2_lt_inv. eapply Qle_lt_trans; eassumption. }
  lia.
Qed.

Lemma expo_le (x y : Q) : 0 < x -> x <= y -> (expo x <= expo y)%Z.
Proof.
  intros Hx Hxy.
  assert (Hy : 0 < y) by (eapply Qlt_le_trans; eassumption).
  destruct (expo_spec x Hx) as [X1 _]. destruct (expo_spec y Hy) as [_ Y2].
  assert (A : (expo x < expo y + 1)%Z).
  { apply pow2_lt_inv. eapply Qle_lt_trans; [ exact X1 | ].
    eapply Qle_lt_trans; eassumption. }
  lia.
Qed.

Lemma expo_comp (x y : Q) : 0 < x -> x == y -> expo x = expo y.
Proof.
  intros Hx E. symmetry. destruct (expo_spec x Hx) as [X1 X2].
  apply expo_unique; rewrite <- ?E; assumption.
Qed.

Lemma rne_bounds (q : Q) : (Qfloor q <= rne q <= Qfloor q + 1)%Z.
Proof.
  unfold rne. destruct (Qcompare _ _); [ destruct (Z.even _) | | ]; lia.
Qed.

Lemma rne_comp (q q' : Q) : q == q' -> rne q = rne q'.
Proof.
  intros E. unfold rne. rewrite (Qfloor_comp q q' E).
  now rewrite (Qcompare_comp (q - inject_Z (Qfloor q'))
                 (q' - inject_Z (Qfloor q')) ltac:(now rewrite E)
                 (1 # 2) (1 # 2) ltac:(reflexivity)).
Qed.

Lemma rne_Z (z : Z) : rne (inject_Z z) = z.
Proof.
  unfold rne. rewrite Qfloor_Z.
  assert (E : inject_Z z - inject_Z z == 0) by ring.
  now rewrite (Qcompare_comp _ _ E (1 # 2) (1 # 2) ltac:(reflexivity)).
Qed.

Lemma rne_le (q1 q2 : Q) : q1 <= q2 -> (rne q1 <= rne q2)%Z.
Proof.
  intros H. pose proof (Qfloor_resp_le _ _ H) as Hf.
  pose proof (rne_bounds q1) as B1. pose proof (rne_bounds q2) as B2.
  destruct (Z.eq_dec (Qfloor q1) (Qfloor q2)) as [E | E]; [ | lia ].
  unfold rne. rewrite <- E.
  assert (Hr : q1 - inject_Z (Qfloor q1) <= q2 - inject_Z (Qfloor q1)).
  { apply Qplus_le_l with (z := inject_Z (Qfloor q1)). now ring_simplify. }
  destruct (Qcompare_spec (q1 - inject_Z (Qfloor q1)) (1 # 2)) as [A | A | A];
    destruct (Qcompare_spec (q2 - inject_Z (Qfloor q1)) (1 # 2)) as [B | B | B];
    try destruct (Z.even (Qfloor q1)); try lia; exfalso; Lqa.lra.
Qed.

Lemma rne_error (q : Q) : Qabs (inject_Z (rne q) - q) <= 1 # 2.
Proof.
  pose proof (Qfloor_le q) as F1. pose proof (Qlt_floor q) as F2.
  rewrite inject_Z_plus in F2. change (inject_Z 1) with 1 in F2. unfold rne.
  apply Qabs_Qle_condition.
  destruct (Qcompare_spec (q - inject_Z (Qfloor q)) (1 # 2)) as [A | A | A];
    [ destruct (Z.even (Qfloor q)) | | ];
    rewrite ?inject_Z_plus; change (inject_Z 1) with 1; split; Lqa.lra.
Qed.

Lemma step_le (x y : Q) : 0 < x -> x <= y -> (step x <= step y)%Z.
Proof. intros Hx H. unfold step. pose proof (expo_le x y Hx H). lia. Qed.

Lemma step_comp (x y : Q) : 0 < x -> x == y -> step x = step y.
Proof. intros Hx E. unfold step. now rewrite (expo_comp x y Hx E). Qed.

Lemma roundPos_comp (x y : Q) : 0 < x -> x == y -> roundPos x == roundPos y.
Proof.
  intros Hx E. unfold roundPos. rewrite (step_comp x y Hx E).
  rewrite (rne_comp (x / pow2 (step y)) (y / pow2 (step y))); [ reflexivity | ].
  now rewrite E.
Qed.

(** Rounding does not cross a value of its own grid. *)
Lemma roundPos_le_grid (x : Q) (z : Z) :
  x <= inject_Z z * pow2 (step x) -> roundPos x <= inject_Z z * pow2 (step x).
Proof.
  intros H. unfold roundPos. pose proof (pow2_pos (step x)) as Hp.
  apply Qmult_le_compat_r; [ | now apply Qlt_le_weak ].
  rewrite <- Zle_Qle. rewrite <- (rne_Z z). apply rne_le.
  now apply Qle_shift_div_r.
Qed.

Lemma roundPos_ge_grid (y : Q) (z : Z) :
  inject_Z z * pow2 (step y) <= y -> inject_Z z * pow2 (step y) <= roundPos y.
Proof.
  intros H. unfold roundPos. pose proof (pow2_pos (step y)) as Hp.
  apply Qmult_le_compat_r; [ | now apply Qlt_le_weak ].
  rewrite <- Zle_Qle. rewrite <- (rne_Z z). apply rne_le.
  now apply Qle_shift_div_l.
Qed.

Lemma roundPos_nonneg (x : Q) : 0 < x -> 0 <= roundPos x.
Proof.
  intros Hx. pose proof (roundPos_ge_grid x 0) as H.
  rewrite Qmult_0_l in H. apply H. now apply Qlt_le_weak.
Qed.

(** A power of two at or above the grid's exponent lies on the grid. *)
Lemma pow2_on_grid (a k : Z) :
  (k <= a)%Z -> pow2 a == inject_Z (2 ^ (a - k)) * pow2 k.
Proof.
  intros H. rewrite <- pow2_Z by lia. rewrite <- pow2_add.
  now replace (a - k + k)%Z with a by ring.
Qed.

Lemma roundPos_le (x y : Q) : 0 < x -> x <= y -> roundPos x <= roundPos y.
Proof.
  intros Hx H.
  assert (Hy : 0 < y) by (eapply Qlt_le_trans; eassumption).
  pose proof (step_le x y Hx H) as Hk.
  destruct (Z.eq_dec (step x) (step y)) as [E | E].
  - unfold roundPos. rewrite E. pose proof (pow2_pos (step y)) as Hp.
    apply Qmult_le_compat_r; [ | now apply Qlt_le_weak ].
    rewrite <- Zle_Qle. apply rne_le.
    apply Qmult_le_compat_r; [ exact H | ].
    apply Qlt_le_weak. now apply Qinv_lt_0_compat.
  - assert (Ey : step y = (expo y - 52)%Z) by (unfold step in *; lia).
    assert (Ex : (expo x + 1 <= expo y)%Z) by (unfold step in *; lia).
    destruct (expo_spec x Hx) as [_ X2]. destruct (expo_spec y Hy) as [Y1 _].
    apply Qle_trans with (y := pow2 (expo y)).
    + rewrite (pow2_on_grid (expo y) (step x)) by lia.
      apply roundPos_le_grid.
      rewrite <- (pow2_on_grid (expo y) (step x)) by lia.
      apply Qlt_le_weak. eapply Qlt_le_trans; [ exact X2 | ].
      now apply pow2_le.
    + rewrite (pow2_on_grid (expo y) (step y)) by lia.
      apply roundPos_ge_grid.
      now rewrite <- (pow2_on_grid (expo y) (step y)) by lia.
Qed.

Lemma round_pos (x : Q) : 0 < x -> round x = roundPos x.
Proof.
  intros H. unfold round.
  now rewrite (proj1 (Qgt_alt x 0) H).
Qed.

Lemma round_neg (x : Q) : x < 0 -> round x = - roundPos (- x).
Proof.
  intros H. unfold round. now rewrite (proj1 (Qlt_alt x 0) H).
Qed.

Lemma round_zero (x : Q) : x == 0 -> round x = 0.
Proof.
  intros H. unfold round. now rewrite (proj1 (Qeq_alt x 0) H).
Qed.

Lemma round_comp (x y : Q) : x == y -> round x == round y.
Proof.
  intros E. destruct (Q_dec x 0) as [[H | H] | H].
  - rewrite (round_neg x H), (round_neg y) by now rewrite <- E.
    apply Qopp_comp. apply roundPos_comp; [ Lqa.lra | now rewrite E ].
  - rewrite (round_pos x H), (round_pos y) by now rewrite <- E.
    now apply roundPos_comp.
  - rewrite (round_zero x H), (round_zero y) by now rewrite <- E.
    reflexivity.
Qed.

Lemma round_nonneg (x : Q) : 0 <= x -> 0 <= round x.
Proof.
  intros H. destruct (Qle_lt_or_eq _ _ H) as [H' | H'].
  - rewrite round_pos by exact H'. now apply roundPos_nonneg.
  - rewrite round_zero by now symmetry. apply Qle_refl.
Qed.

Lemma round_nonpos (x : Q) : x <= 0 -> round x <= 0.
Proof.
  intros H. destruct (Qle_lt_or_eq _ _ H) as [H' | H'].
  - rewrite round_neg by exact H'.
    assert (0 <= roundPos (- x)) by (apply roundPos_nonneg; Lqa.lra). Lqa.lra.
  - rewrite round_zero by exact H'. apply Qle_refl.
Qed.

(** Rounding keeps the order. *)
Lemma round_le (x y : Q) : x <= y -> round x <= round y.
Proof.
  intros H. destruct (Qlt_le_dec 0 x) as [Hx | Hx].
  - rewrite (round_pos x Hx), (round_pos y) by Lqa.lra.
    now apply roundPos_le.
  - destruct (Qlt_le_dec y 0) as [Hy | Hy].
    + rewrite (round_neg y Hy), (round_neg x) by Lqa.lra.
      apply Qopp_le_compat. apply roundPos_le; Lqa.lra.
    + apply Qle_trans with (y := 0);
        [ now apply round_nonpos | now apply round_nonneg ].
Qed.

(** A value with at most 53 significant bits and no bit below [2^-1074]
    is left as it is. *)
Lemma roundPos_dyadic (m e : Z) :
  (0 < m < 2 ^ 53)%Z -> (-1074 <= e)%Z ->
  roundPos (inject_Z m * pow2 e) == inject_Z m * pow2 e.
Proof.
  intros Hm He. set (x := inject_Z m * pow2 e).
  pose proof (pow2_pos e) as Hpe.
  assert (Hx : 0 < x).
  { unfold x. apply Qmult_lt_0_compat; [ | exact Hpe ].
    change 0 with (inject_Z 0). rewrite <- Zlt_Qlt. lia. }
  assert (Hk : (step x <= e)%Z).
  { unfold step. destruct (expo_spec x Hx) as [X1 _].
    assert (x < pow2 (53 + e)).
    { unfold x. rewrite pow2_add.
      apply Qmult_lt_compat_r; [ exact Hpe | ].
      rewrite pow2_Z by lia. rewrite <- Zlt_Qlt. lia. }
    assert (expo x < 53 + e)%Z.
    { apply pow2_lt_inv. eapply Qle_lt_trans; eassumption. }
    lia. }
  unfold roundPos. revert Hk. generalize (step x). intros k Hk.
  pose proof (pow2_pos k) as Hpk.
  pose proof (pow2_on_grid e k Hk) as G.
  assert (E : x / pow2 k == inject_Z (m * 2 ^ (e - k))).
  { unfold x. rewrite G, inject_Z_mult. field. Lqa.lra. }
  rewrite (rne_comp _ _ E), rne_Z, inject_Z_mult.
  unfold x. rewrite G. ring.
Qed.

Lemma round_dyadic (m e : Z) :
  (Z.abs m < 2 ^ 53)%Z -> (-1074 <= e)%Z ->
  round (inject_Z m * pow2 e) == inject_Z m * pow2 e.
Proof.
  intros Hm He. pose proof (pow2_pos e) as Hpe.
  destruct (Z.lt_trichotomy m 0) as [H | [H | H]].
  - assert (Hx : inject_Z m * pow2 e < 0).
    { assert (inject_Z m < 0).
      { change 0 with (inject_Z 0). rewrite <- Zlt_Qlt. exact H. }
      setoid_replace (inject_Z m * pow2 e)
        with (- ((- inject_Z m) * pow2 e)) by ring.
      assert (0 < (- inject_Z m) * pow2 e)
        by (apply Qmult_lt_0_compat; Lqa.lra).
      Lqa.lra. }
    rewrite round_neg by exact Hx.
    assert (E : - (inject_Z m * pow2 e) == inject_Z (- m) * pow2 e).
    { rewrite inject_Z_opp. ring. }
    assert (Hp : 0 < - (inject_Z m * pow2 e)) by Lqa.lra.
    rewrite (roundPos_comp _ _ Hp E).
    rewrite roundPos_dyadic by lia. rewrite inject_Z_opp. ring.
  - subst m. rewrite round_zero by ring. ring.
  - assert (Hx : 0 < inject_Z m * pow2 e).
    { apply Qmult_lt_0_compat; [ | exact Hpe ].
      change 0 with (inject_Z 0). rewrite <- Zlt_Qlt. exact H. }
    rewrite round_pos by exact Hx. apply roundPos_dyadic; lia.
Qed.

(** Integers below [2^53] in size are binary64 values. *)
Lemma round_Z (z : Z) :
  (Z.abs z < 2 ^ 53)%Z -> round (inject_Z z) == inject_Z z.
Proof.
  intros H. pose proof (round_dyadic z 0 H ltac:(lia)) as R.
  assert (E : inject_Z z * pow2 0 == inject_Z z) by (unfold pow2; simpl; ring).
  now rewrite (round_comp _ _ E), E in R.
Qed.

(** Every rounded value is a multiple of [2^-1074]. *)
Lemma round_grid (x : Q) : exists n, round x == inject_Z n * pow2 (-1074).
Proof.
  assert (P : forall y, exists n, roundPos y == inject_Z n * pow2 (-1074)).
  { intros y. unfold roundPos.
    exists (rne (y / pow2 (step y)) * 2 ^ (step y - -1074))%Z.
    rewrite (pow2_on_grid (step y) (-1074)) at 2 by (unfold step; lia).
    rewrite inject_Z_mult. ring. }
  destruct (Q_dec x 0) as [[H | H] | H].
  - rewrite (round_neg x H). destruct (P (- x)) as [n Hn].
    exists (- n)%Z. rewrite Hn, inject_Z_opp. ring.
  - rewrite (round_pos x H). apply P.
  - rewrite (round_zero x H). exists 0%Z. ring.
Qed.

Lemma roundPos_error (x : Q) :
  0 < x -> Qabs (roundPos x - x) <= pow2 (step x) * (1 # 2).
Proof.
  intros Hx. pose proof (pow2_pos (step x)) as Hp. unfold roundPos.
  pose proof (rne_error (x / pow2 (step x))) as R.
  revert R Hp. generalize (rne (x / pow2 (step x))). generalize (pow2 (step x)).
  intros p r R Hp.
  assert (E : inject_Z r * p - x == (inject_Z r - x / p) * p) by (field; Lqa.lra).
  rewrite E, Qabs_Qmult, (Qabs_pos p) by Lqa.lra.
  rewrite (Qmult_comm p). apply Qmult_le_compat_r; [ exact R | Lqa.lra ].
Qed.

Lemma step_bound (x : Q) :
  0 < x -> pow2 (step x) <= pow2 (-52) * x + pow2 (-1074).
Proof.
  intros Hx. destruct (expo_spec x Hx) as [X1 _]. unfold step.
  pose proof (pow2_pos (-52)). pose proof (pow2_pos (-1074)).
  destruct (Z.max_spec (expo x - 52) (-1074)) as [[_ ->] | [_ ->]].
  - assert (0 <= pow2 (-52) * x) by (apply Qmult_le_0_compat; Lqa.lra). Lqa.lra.
  - replace (expo x - 52)%Z with (-52 + expo x)%Z by ring.
    rewrite pow2_add.
    assert (pow2 (-52) * pow2 (expo x) <= pow2 (-52) * x).
    { rewrite !(Qmult_comm (pow2 (-52))).
      apply Qmult_le_compat_r; Lqa.lra. }
    Lqa.lra.
Qed.

(** The rounding error: half a unit in the last place. *)
Lemma round_error (x : Q) :
  Qabs (round x - x) <= pow2 (-53) * Qabs x + pow2 (-1075).
Proof.
  assert (H2 : forall y, 0 < y ->
            Qabs (roundPos y - y) <= pow2 (-53) * y + pow2 (-1075)).
  { intros y Hy. pose proof (roundPos_error y Hy) as E.
    pose proof (step_bound y Hy) as S.
    assert (A : pow2 (-52) * (1 # 2) == pow2 (-53)) by reflexivity.
    assert (B : pow2 (-1074) * (1 # 2) == pow2 (-1075)) by reflexivity.
    rewrite <- A, <- B. Lqa.lra. }
  destruct (Q_dec x 0) as [[H | H] | H].
  - rewrite (round_neg x H), (Qabs_neg x) by Lqa.lra.
    assert (E : - roundPos (- x) - x == - (roundPos (- x) - - x)) by ring.
    rewrite E, Qabs_opp. apply H2. Lqa.lra.
  - rewrite (round_pos x H), (Qabs_pos x) by Lqa.lra. now apply H2.
  - rewrite (round_zero x H).
    assert (E : 0 - x == 0) by Lqa.lra. rewrite E. simpl Qabs at 1.
    pose proof (Qabs_nonneg x). pose proof (pow2_pos (-53)).
    pose proof (pow2_pos (-1075)).
    assert (0 <= pow2 (-53) * Qabs x) by (apply Qmult_le_0_compat; Lqa.lra).
    Lqa.lra.
Qed.

Lemma round_opp (x : Q) : round (- x) == - round x.
Proof.
  destruct (Q_dec x 0) as [[H | H] | H].
  - rewrite (round_neg x H), (round_pos (- x)) by Lqa.lra. ring.
  - rewrite (round_pos x H), (round_neg (- x)) by Lqa.lra.
    rewrite (roundPos_comp (- - x) x); [ reflexivity | Lqa.lra | ring ].
  - rewrite (round_zero x H), (round_zero (- x)) by Lqa.lra. reflexivity.
Qed.

Lemma round_pow2 (b : Z) : (-1074 <= b)%Z -> round (pow2 b) == pow2 b.
Proof.
  intros H. pose proof (round_dyadic 1 b ltac:(simpl; lia) H) as R.
  assert (E : inject_Z 1 * pow2 b == pow2 b) by ring.
  now rewrite (round_comp _ _ E), E in R.
Qed.

(** Rounding between two binary64 values stays between them. *)
Lemma round_between (lo x hi : Q) :
  isDouble lo -> isDouble hi -> lo <= x <= hi -> lo <= round x <= hi.
Proof.
  unfold isDouble. intros Hlo Hhi [H1 H2]. split.
  - rewrite <- Hlo. now apply round_le.
  - rewrite <- Hhi. now apply round_le.
Qed.

Lemma isDouble_opp (x : Q) : isDouble x -> isDouble (- x).
Proof. unfold isDouble. intros H. now rewrite round_opp, H. Qed.

Lemma isDouble_Z (z : Z) : (Z.abs z < 2 ^ 53)%Z -> isDouble (inject_Z z).
Proof. apply round_Z. Qed.

Lemma isDouble_pow2 (b : Z) : (-1074 <= b)%Z -> isDouble (pow2 b).
Proof. apply round_pow2. Qed.

(** No overflow below [2^1024]. *)
Lemma round64_finite (x : Q) :
  Qabs (round x) < pow2 1024 -> round64 x = Some (round x).
Proof.
  intros H. unfold round64. cbv zeta.
  destruct (Qle_bool (pow2 1024) (Qabs (round x))) eqn:E; [ | reflexivity ].
  apply Qle_bool_iff in E. Lqa.lra.
Qed.

Lemma round64_bounded (x : Q) (b : Z) :
  (-1074 <= b < 1024)%Z -> Qabs x <= pow2 b -> round64 x = Some (round x).
Proof.
  intros Hb H. apply round64_finite.
  apply Qabs_Qle_condition in H.
  destruct (round_between (- pow2 b) x (pow2 b)) as [R1 R2].
  - apply isDouble_opp, isDouble_pow2. lia.
  - apply isDouble_pow2. lia.
  - exact H.
  - apply Qle_lt_trans with (y := pow2 b).
    + apply Qabs_Qle_condition. now split.
    + apply pow2_lt. lia.
Qed.

Lemma Qceiling_pos (r : Q) : 0 < r -> (1 <= Qceiling r)%Z.
Proof.
  intros H. pose proof (Qle_ceiling r) as C.
  assert (0 < inject_Z (Qceiling r)) by Lqa.lra.
  change 0 with (inject_Z 0) in H0. rewrite <- Zlt_Qlt in H0. lia.
Qed.

Lemma Qceiling_nonpos (r : Q) : r <= 0 -> (Qceiling r <= 0)%Z.
Proof. intros H. change 0%Z with (Qceiling 0). now apply Qceiling_resp_le. Qed.

(** The difference of an integer and a binary64 value below it is at least
    the smallest positive binary64 value. *)
Lemma diff_at_least_tiny (T : Z) (E : Q) :
  isDouble E -> E < inject_Z T -> pow2 (-1074) <= inject_Z T - E.
Proof.
  intros HE H. destruct (round_grid E) as [n Hn].
  unfold isDouble in HE. rewrite HE in Hn.
  pose proof (pow2_pos (-1074)) as Hp.
  assert (One : pow2 1074 * pow2 (-1074) == 1) by reflexivity.
  assert (Ediff : inject_Z T - E
                  == inject_Z (T * 2 ^ 1074 - n) * pow2 (-1074)).
  { unfold Z.sub. rewrite inject_Z_plus, inject_Z_mult, inject_Z_opp.
    rewrite <- (pow2_Z 1074) by lia. rewrite Hn.
    setoid_replace (inject_Z T) with (inject_Z T * (pow2 1074 * pow2 (-1074)))
      at 1 by (rewrite One; ring).
    ring. }
  rewrite Ediff.
  assert (Hk : (1 <= T * 2 ^ 1074 - n)%Z).
  { assert (P : 0 < inject_Z (T * 2 ^ 1074 - n) * pow2 (-1074))
      by (rewrite <- Ediff; Lqa.lra).
    assert (Q0 : 0 < inject_Z (T * 2 ^ 1074 - n)).
    { destruct (Qlt_le_dec 0 (inject_Z (T * 2 ^ 1074 - n))) as [L | L];
        [ exact L | exfalso ].
      assert (inject_Z (T * 2 ^ 1074 - n) * pow2 (-1074) <= 0 * pow2 (-1074))
        by (apply Qmult_le_compat_r; Lqa.lra).
      Lqa.lra. }
    change 0 with (inject_Z 0) in Q0. rewrite <- Zlt_Qlt in Q0. lia. }
  rewrite <- (Qmult_1_l (pow2 (-1074))) at 1.
  apply Qmult_le_compat_r; [ | Lqa.lra ].
  change 1 with (inject_Z 1). rewrite <- Zle_Qle. exact Hk.
Qed.

(** What line 115 shows, for a total [T] and a stored elapsed time [E]. *)
Lemma left_value (T : Z) (E : Q) :
  (0 <= T < 2 ^ 53)%Z -> isDouble E -> 0 <= E -> E < pow2 1024 ->
  left T E = Some (Z.max 0 (Qceiling (round (inject_Z T - E)))).
Proof.
  intros HT HE H0 Hfin. unfold left, sub.
  assert (HTd : isDouble (inject_Z T)) by (apply isDouble_Z; lia).
  assert (T0 : 0 <= inject_Z T).
  { change 0 with (inject_Z 0). rewrite <- Zle_Qle. lia. }
  assert (T1 : inject_Z T < pow2 1024).
  { apply Qlt_trans with (y := pow2 53); [ | now apply pow2_lt ].
    rewrite pow2_Z by lia. rewrite <- Zlt_Qlt. lia. }
  destruct (round_between (- E) (inject_Z T - E) (inject_Z T)) as [R1 R2];
    [ now apply isDouble_opp | exact HTd | split; Lqa.lra | ].
  rewrite round64_finite; [ reflexivity | ].
  apply Qabs_case; intros _; Lqa.lra.
Qed.

Lemma left_spec (T : Z) (E : Q) :
  (0 <= T < 2 ^ 53)%Z -> isDouble E -> 0 <= E ->
  let v := Z.max 0 (Qceiling (round (inject_Z T - E))) in
  let exact := Z.max 0 (Qceiling (inject_Z T - E)) in
  (0 <= v)%Z /\ (exact - 1 <= v <= exact)%Z /\ (v = 0%Z <-> inject_Z T <= E).
Proof.
  intros HT HE H0 v exact.
  set (x := inject_Z T - E) in *. set (r := round x) in *.
  assert (T0 : 0 <= inject_Z T).
  { change 0 with (inject_Z 0). rewrite <- Zle_Qle. lia. }
  assert (Hneg : x <= 0 -> v = 0%Z).
  { intros Hx. pose proof (Qceiling_nonpos r (round_nonpos x Hx)).
    unfold v. lia. }
  assert (Hpos : 0 < x -> (1 <= v)%Z).
  { intros Hx.
    assert (D : pow2 (-1074) <= x).
    { apply diff_at_least_tiny; [ exact HE | unfold x in Hx; Lqa.lra ]. }
    pose proof (round_le _ _ D) as R. fold r in R.
    rewrite (round_pow2 (-1074)) in R by lia.
    pose proof (pow2_pos (-1074)).
    assert (0 < r) by Lqa.lra.
    pose proof (Qceiling_pos r H1). unfold v. lia. }
  split; [ unfold v; lia | ]. split; [ split | split ].
  - destruct (Qlt_le_dec 0 x) as [Hx | Hx].
    + pose proof (Qfloor_le x) as F.
      assert (F0 : (0 <= Qfloor x)%Z).
      { change 0%Z with (Qfloor 0). apply Qfloor_resp_le. Lqa.lra. }
      assert (F1 : (Qfloor x <= T)%Z).
      { rewrite <- (Qfloor_Z T). apply Qfloor_resp_le. unfold x. Lqa.lra. }
      assert (Fd : round (inject_Z (Qfloor x)) == inject_Z (Qfloor x))
        by (apply round_Z; lia).
      pose proof (round_le _ _ F) as R. fold r in R. rewrite Fd in R.
      pose proof (Qceiling_resp_le _ _ R) as C. rewrite Qceiling_Z in C.
      pose proof (Qceiling_lt x) as L.
      assert ((Qceiling x - 1 <= Qfloor x)%Z).
      { rewrite <- (Qfloor_Z (Qceiling x - 1)). apply Qfloor_resp_le. Lqa.lra. }
      unfold v, exact. lia.
    + pose proof (Qceiling_nonpos x Hx). pose proof (Hneg Hx).
      unfold exact. lia.
  - destruct (Qlt_le_dec 0 x) as [Hx | Hx].
    + pose proof (Qle_ceiling x) as C.
      assert (C0 : (1 <= Qceiling x)%Z) by now apply Qceiling_pos.
      assert (C1 : (Qceiling x <= T)%Z).
      { rewrite <- (Qceiling_Z T). apply Qceiling_resp_le. unfold x. Lqa.lra. }
      assert (Cd : round (inject_Z (Qceiling x)) == inject_Z (Qceiling x))
        by (apply round_Z; lia).
      pose proof (round_le _ _ C) as R. fold r in R. rewrite Cd in R.
      pose proof (Qceiling_resp_le _ _ R) as C2. rewrite Qceiling_Z in C2.
      unfold v, exact. lia.
    + pose proof (Hneg Hx). unfold exact. lia.
  - intros Hv. destruct (Qlt_le_dec E (inject_Z T)) as [L | L]; [ | exact L ].
    assert (0 < x) by (unfold x; Lqa.lra). pose proof (Hpos H). lia.
  - intros L. apply Hneg. unfold x. Lqa.lra.
Qed.

(** A rounded value is a binary64 value. *)
Lemma round_idem (x : Q) : isDouble (round x).
Proof.
  assert (P : forall y, 0 < y -> isDouble (roundPos y)).
  { intros y Hy. unfold isDouble, roundPos.
    pose proof (pow2_pos (step y)) as Hp.
    destruct (expo_spec y Hy) as [_ Y2].
    assert (Hk : (-1074 <= step y)%Z) by (unfold step; lia).
    assert (Hr0 : (0 <= rne (y / pow2 (step y)))%Z).
    { rewrite <- (rne_Z 0). apply rne_le.
      apply Qle_shift_div_l; [ exact Hp | ].
      change (inject_Z 0) with 0. rewrite Qmult_0_l. Lqa.lra. }
    assert (Hr1 : (rne (y / pow2 (step y)) <= 2 ^ 53)%Z).
    { rewrite <- (rne_Z (2 ^ 53)). apply rne_le.
      apply Qle_shift_div_r; [ exact Hp | ].
      rewrite <- (pow2_Z 53), <- pow2_add by lia.
      apply Qlt_le_weak. eapply Qlt_le_trans; [ exact Y2 | ].
      apply pow2_le. unfold step. lia. }
    destruct (Z.eq_dec (rne (y / pow2 (step y))) (2 ^ 53)) as [E | E].
    - rewrite E.
      assert (G : inject_Z (2 ^ 53) * pow2 (step y)
                  == inject_Z 1 * pow2 (53 + step y)).
      { rewrite <- (pow2_Z 53), <- pow2_add by lia. ring. }
      rewrite (round_comp _ _ G), G.
      apply round_dyadic; [ reflexivity | lia ].
    - apply round_dyadic; lia. }
  destruct (Q_dec x 0) as [[H | H] | H].
  - rewrite (round_neg x H). apply isDouble_opp, P. Lqa.lra.
  - rewrite (round_pos x H). now apply P.
  - rewrite (round_zero x H). unfold isDouble. now rewrite round_zero.
Qed.

Lemma isDouble_max0 (q : Q) : isDouble q -> isDouble (Qmax 0 q).
Proof.
  intros H. unfold isDouble. destruct (Qlt_le_dec q 0) as [L | L].
  - assert (E : Qmax 0 q == 0) by (apply Q.max_l; Lqa.lra).
    rewrite (round_comp _ _ E), E. now rewrite round_zero.
  - assert (E : Qmax 0 q == q) by now apply Q.max_r.
    rewrite (round_comp _ _ E), E. exact H.
Qed.

Lemma round64_Some (x r : Q) :
  round64 x = Some r -> r = round x /\ Qabs r < pow2 1024.
Proof.
  unfold round64. cbv zeta.
  destruct (Qle_bool (pow2 1024) (Qabs (round x))) eqn:E; [ discriminate | ].
  intros H. injection H as <-. split; [ reflexivity | ].
  apply Qnot_le_lt. intros L. apply Qle_bool_iff in L. congruence.
Qed.

(** What a frame stores as elapsed time is a finite, non-negative binary64
    value. *)
Lemma elapsedSec_stored (now start E : Q) :
  elapsedSec now start = Some E -> isDouble E /\ 0 <= E /\ E < pow2 1024.
Proof.
  unfold elapsedSec, sub, div, bind.
  destruct (round64 (now - start)) as [d | ]; [ | discriminate ].
  destruct (Qeq_bool 1000 0); [ discriminate | ].
  destruct (round64 (d / 1000)) as [q | ] eqn:Eq; [ | discriminate ].
  intros H. injection H as <-.
  destruct (round64_Some _ _ Eq) as [-> F].
  pose proof (pow2_pos 1024) as Hp.
  split; [ apply isDouble_max0, round_idem | ].
  split; [ apply Q.le_max_l | ].
  apply Q.max_lub_lt; [ exact Hp | ].
  eapply Qle_lt_trans; [ apply Qle_Qabs | exact F ].
Qed.

Lemma left_zero_elapsed (T : Z) : (0 <= T < 2 ^ 53)%Z -> left T 0 = Some T.
Proof.
  intros HT. rewrite left_value; try Lqa.lra.
  - assert (E : inject_Z T - 0 == inject_Z T) by ring.
    rewrite (Qceiling_comp _ _ (round_comp _ _ E)).
    rewrite (Qceiling_comp _ _ (round_Z T ltac:(lia))), Qceiling_Z.
    f_equal. lia.
  - exact HT.
  - unfold isDouble. now rewrite round_zero.
  - apply pow2_pos.
Qed.

Lemma left_at_total (T : Z) :
  (0 <= T < 2 ^ 53)%Z -> left T (inject_Z T) = Some 0%Z.
Proof.
  intros HT.
  assert (T0 : 0 <= inject_Z T).
  { change 0 with (inject_Z 0). rewrite <- Zle_Qle. lia. }
  rewrite left_value.
  - now rewrite (round_zero (inject_Z T - inject_Z T)) by ring.
  - exact HT.
  - apply isDouble_Z. lia.
  - exact T0.
  - apply Qlt_trans with (y := pow2 53); [ | now apply pow2_lt ].
    rewrite pow2_Z by lia. rewrite <- Zlt_Qlt. lia.
Qed.

(** What a frame stores: a finite non-negative binary64 elapsed time and
    the remaining seconds line 115 computes from it. *)
Lemma tick_stored (T : Z) (now start E : Q) (v : Z) (fin : bool) :
  (0 <= T < 2 ^ 53)%Z ->
  tick T now start = Some (E, v, fin) ->
  isDouble E /\ 0 <= E /\ E < pow2 1024 /\ left T E = Some v.
Proof.
  intros HT. unfold tick, bind.
  destruct (elapsedSec now start) as [e | ] eqn:Ee; [ | discriminate ].
  destruct (left T e) as [l | ] eqn:El; [ | discriminate ].
  destruct (elapsedSec_stored _ _ _ Ee) as [D [P F]].
  destruct (Qle_bool (inject_Z T) e); intros H; injection H as <- <- <-.
  - assert (T0 : 0 <= inject_Z T).
    { change 0 with (inject_Z 0). rewrite <- Zle_Qle. lia. }
    split; [ apply isDouble_Z; lia | ]. split; [ exact T0 | ].
    split; [ | now apply left_at_total ].
    apply Qlt_trans with (y := pow2 53); [ | now apply pow2_lt ].
    rewrite pow2_Z by lia. rewrite <- Zlt_Qlt. lia.
  - repeat split; assumption.
Qed.


Lemma round_err (x M : Q) :
  Qabs x <= M ->
  - ((1 # 9007199254740992) * M + pow2 (-1075)) <= round x - x
  /\ round x - x <= (1 # 9007199254740992) * M + pow2 (-1075).
Proof.
  intros H. pose proof (round_error x) as E.
  apply Qabs_Qle_condition in E.
  assert (U : pow2 (-53) == 1 # 9007199254740992) by reflexivity.
  rewrite U in E. revert H E. generalize (Qabs x) (round x) (pow2 (-1075)).
  intros a r eta H E. Lqa.lra.
Qed.

Lemma div_1000 (d : Q) : div d 1000 = round64 (d * (1 # 1000)).
Proof. reflexivity. Qed.

Lemma abs_le (x M : Q) : - M <= x -> x <= M -> Qabs x <= M.
Proof. intros H1 H2. apply Qabs_Qle_condition. now split. Qed.

(** Lines 110 and 113 in binary64: the anchor a resume stores and the
    elapsed time the next frame reads from it. *)
Lemma resume_reading (E p now : Q) :
  0 <= E -> E <= pow2 40 -> 0 <= p -> p <= now -> now <= pow2 53 ->
  exists a r,
    anchor p E = Some a /\ elapsedSec now a = Some r /\
    Qabs (r - (E + (now - p) / 1000))
    <= pow2 (-50) * (E + (p + now) / 1000) + pow2 (-1070).
Proof.
  intros E0 E1 P0 PN N1.
  unfold Qdiv. change (/ 1000) with (1 # 1000).
  assert (P40 : pow2 40 == 1099511627776) by reflexivity.
  assert (P50 : pow2 50 == 1125899906842624) by reflexivity.
  assert (P53 : pow2 53 == 9007199254740992) by reflexivity.
  assert (P54 : pow2 54 == 18014398509481984) by reflexivity.
  assert (P55 : pow2 55 == 36028797018963968) by reflexivity.
  assert (Pm50 : pow2 (-50) == 1 # 1125899906842624) by reflexivity.
  assert (Pm : pow2 (-1070) == 32 * pow2 (-1075)).
  { assert (X : 32 == pow2 5) by reflexivity.
    rewrite X, <- pow2_add. reflexivity. }
  assert (Eta : 0 < pow2 (-1075)) by apply pow2_pos.
  assert (D0 : isDouble 0) by (unfold isDouble; now rewrite round_zero).
  set (m := round (E * 1000)).
  set (a := round (p - m)).
  set (d := round (now - a)).
  set (q := round (d * (1 # 1000))).
  (* ranges *)
  destruct (round_between 0 (E * 1000) (pow2 50)) as [m0 m1];
    [ exact D0 | apply isDouble_pow2; lia | Lqa.lra | ].
  fold m in m0, m1.
  destruct (round_between (- pow2 50) (p - m) (pow2 53)) as [a0 a1];
    [ apply isDouble_opp, isDouble_pow2; lia | apply isDouble_pow2; lia
    | Lqa.lra | ].
  fold a in a0, a1.
  destruct (round_between (- pow2 54) (now - a) (pow2 54)) as [d0 d1];
    [ apply isDouble_opp, isDouble_pow2; lia | apply isDouble_pow2; lia
    | Lqa.lra | ].
  fold d in d0, d1.
  (* no overflow *)
  assert (Rm : mul E 1000 = Some m).
  { apply (round64_bounded _ 50); [ lia | apply abs_le; Lqa.lra ]. }
  assert (Ra : sub p m = Some a).
  { apply (round64_bounded _ 53); [ lia | apply abs_le; Lqa.lra ]. }
  assert (Rd : sub now a = Some d).
  { apply (round64_bounded _ 54); [ lia | apply abs_le; Lqa.lra ]. }
  assert (Rq : div d 1000 = Some q).
  { rewrite div_1000.
    apply (round64_bounded _ 54); [ lia | apply abs_le; Lqa.lra ]. }
  exists a, (Qmax 0 q). split; [ | split ].
  - unfold anchor, bind. now rewrite Rm.
  - unfold elapsedSec, bind. now rewrite Rd, Rq.
  - (* the four roundings, each with a bound on the size of its argument *)
    destruct (round_err (E * 1000) (E * 1000)) as [e1 e1'];
      [ apply abs_le; Lqa.lra | ].
    fold m in e1, e1'.
    destruct (round_err (p - m) (p + m)) as [e2 e2'];
      [ apply abs_le; Lqa.lra | ].
    fold a in e2, e2'.
    destruct (round_err (now - a)
                (now + (p + m + (1 # 9007199254740992) * (p + m)
                        + pow2 (-1075)))) as [e3 e3'];
      [ apply abs_le; Lqa.lra | ].
    fold d in e3, e3'.
    destruct (round_err (d * (1 # 1000))
                ((now + (p + m + (1 # 9007199254740992) * (p + m)
                         + pow2 (-1075))
                  + (1 # 9007199254740992)
                    * (now + (p + m + (1 # 9007199254740992) * (p + m)
                              + pow2 (-1075)))
                  + pow2 (-1075)) * (1 # 1000))) as [e4 e4'];
      [ apply abs_le; Lqa.lra | ].
    fold q in e4, e4'.
    rewrite Pm50, Pm.
    clearbody m a d q.
    revert Eta e1 e1' e2 e2' e3 e3' e4 e4'. clear - E0 P0 PN.
    generalize (pow2 (-1075)).
    intros eta Eta e1 e1' e2 e2' e3 e3' e4 e4'.
    apply abs_le; destruct (Q.max_spec 0 q) as [[L ->] | [L ->]]; Lqa.lra.
Qed.

Lemma fraction_value (T : Z) (E : Q) :
  (0 < T < 2 ^ 53)%Z -> 0 <= E -> E <= inject_Z T ->
  exists f,
    fraction T E = Some f /\ 0 <= f /\ f <= 1 /\
    (E == 0 -> f == 0) /\ (E == inject_Z T -> f == 1).
Proof.
  intros HT E0 E1.
  assert (Tpos : 0 < inject_Z T).
  { change 0 with (inject_Z 0). rewrite <- Zlt_Qlt. lia. }
  assert (Tne : ~ inject_Z T == 0) by Lqa.lra.
  assert (D0 : isDouble 0) by (unfold isDouble; now rewrite round_zero).
  assert (D1 : isDouble 1) by (apply (isDouble_Z 1); reflexivity).
  assert (Q0 : 0 <= E / inject_Z T).
  { apply Qle_shift_div_l; [ exact Tpos | Lqa.lra ]. }
  assert (Q1 : E / inject_Z T <= 1).
  { apply Qle_shift_div_r; [ exact Tpos | Lqa.lra ]. }
  destruct (round_between 0 (E / inject_Z T) 1 D0 D1 (conj Q0 Q1)) as [R0 R1].
  exists (Qmin 1 (round (E / inject_Z T))).
  split; [ | split; [ | split; [ | split ] ] ].
  - unfold fraction, div, bind.
    rewrite (proj2 (Z.ltb_lt 0 T)) by lia.
    destruct (Qeq_bool (inject_Z T) 0) eqn:B.
    + apply Qeq_bool_iff in B. contradiction.
    + rewrite (round64_bounded _ 0); [ reflexivity | lia | ].
      apply abs_le; [ | exact Q1 ].
      change (pow2 0) with 1. Lqa.lra.
  - apply Q.min_glb; Lqa.lra.
  - apply Q.le_min_l.
  - intros Hz. rewrite Q.min_r by exact R1.
    rewrite round_zero; [ reflexivity | ].
    rewrite Hz. unfold Qdiv. apply Qmult_0_l.
  - intros Hz. rewrite Q.min_r by exact R1.
    assert (X : E / inject_Z T == 1).
    { rewrite Hz. unfold Qdiv. now apply Qmult_inv_r. }
    rewrite (round_comp _ _ X). exact D1.
Qed.

Lemma index_value (n : Z) (f : Q) :
  (0 <= n < 2 ^ 53)%Z -> 0 <= f -> f <= 1 ->
  exists i,
    round64 (f * inject_Z n) = Some (round (f * inject_Z n)) /\
    i = Qfloor (round (f * inject_Z n)) /\ (0 <= i <= n)%Z /\
    (f == 0 -> i = 0%Z) /\ (f == 1 -> i = n).
Proof.
  intros Hn F0 F1.
  assert (N0 : 0 <= inject_Z n).
  { change 0 with (inject_Z 0). rewrite <- Zle_Qle. lia. }
  assert (D0 : isDouble 0) by (unfold isDouble; now rewrite round_zero).
  assert (Dn : isDouble (inject_Z n)) by (apply isDouble_Z; lia).
  assert (P0 : 0 <= f * inject_Z n) by now apply Qmult_le_0_compat.
  assert (P1 : f * inject_Z n <= inject_Z n).
  { rewrite <- (Qmult_1_l (inject_Z n)) at 2.
    now apply Qmult_le_compat_r. }
  destruct (round_between 0 _ (inject_Z n) D0 Dn (conj P0 P1)) as [R0 R1].
  eexists. split; [ | split; [ reflexivity | split; [ | split ] ] ].
  - apply (round64_bounded _ 53); [ lia | ].
    apply abs_le.
    + apply Qle_trans with (y := 0); [ | exact P0 ].
      pose proof (pow2_pos 53). Lqa.lra.
    + apply Qle_trans with (y := inject_Z n); [ exact P1 | ].
      rewrite pow2_Z by lia. rewrite <- Zle_Qle. lia.
  - split.
    + change 0%Z with (Qfloor 0). now apply Qfloor_resp_le.
    + apply Z.le_trans with (m := Qfloor (inject_Z n)).
      * now apply Qfloor_resp_le.
      * rewrite Qfloor_Z. apply Z.le_refl.
  - intros Hz.
    assert (X : f * inject_Z n == 0) by (rewrite Hz; apply Qmult_0_l).
    rewrite (round_zero _ X). reflexivity.
  - intros Hz.
    assert (X : f * inject_Z n == inject_Z n) by (rewrite Hz; apply Qmult_1_l).
    rewrite (Qfloor_comp _ _ (round_comp _ _ X)).
    rewrite (Qfloor_comp _ _ Dn). apply Qfloor_Z.
Qed.

End DoubleFacts.

(** ** Agreement with the machine

    The roundings of [Double] against the binary64 arithmetic of the
    machine, on the numbers of the examples below. *)

Section MachineFloats.
Import PrimFloat.
Local Open Scope float_scope.

Example round_agrees_literals :
  sameValue (ofFloat (20001 / 10)) (Some (Double.round (20001 # 10))) = true /\
  sameValue (ofFloat (10001 / 10)) (Some (Double.round (10001 # 10))) = true /\
  sameValue (ofFloat (362852053 / 1000))
    (Some (Double.round (362852053 # 1000))) = true /\
  sameValue (ofFloat (580852053 / 1000))
    (Some (Double.round (580852053 # 1000))) = true /\
  sameValue (ofFloat (876405524 / 1000))
    (Some (Double.round (876405524 # 1000))) = true.
Proof. repeat split; vm_compute; reflexivity. Qed.

(** Lines 113 and 115 on the frame at 2000.1 of a timer started at
    1000.1. *)
Example tick_agrees_machine :
  let now := 20001 / 10 in
  let start := 10001 / 10 in
  let elapsedSec := (now - start) / 1000 in
  sameValue (ofFloat elapsedSec)
    (Double.elapsedSec (Double.round (20001 # 10))
       (Double.round (10001 # 10))) = true /\
  sameValue (ofFloat (300 - elapsedSec)) (Some 299%Q) = true.
Proof. split; vm_compute; reflexivity. Qed.

(** Lines 110 and 113 on the resume at 876405.524 after 217.99999999999994
    seconds. *)
Example resume_agrees_machine :
  let elapsedSec := (580852053 / 1000 - 362852053 / 1000) / 1000 in
  let now := 876405524 / 1000 in
  let start := now - elapsedSec * 1000 in
  sameValue (ofFloat elapsedSec)
    (Double.elapsedSec (Double.round (580852053 # 1000))
       (Double.round (362852053 # 1000))) = true /\
  sameValue (ofFloat start)
    (Double.bind
       (Double.elapsedSec (Double.round (580852053 # 1000))
          (Double.round (362852053 # 1000)))
       (Double.anchor (Double.round (876405524 # 1000)))) = true /\
  sameValue (ofFloat ((now - start) / 1000)) (Some 218%Q) = true.
Proof. repeat split; vm_compute; reflexivity. Qed.

(** Lines 231 and 232 at 43.5 of 300 seconds. *)
Example index_agrees_machine :
  let fraction := 87 / 2 / 300 in
  sameValue (ofFloat fraction) (Double.fraction 300 (87 # 2)) = true /\
  sameValue (ofFloat (fraction * 200))
    (Double.bind (Double.fraction 300 (87 # 2))
       (fun f => Double.mul f 200)) = true /\
  Double.bind (Double.fraction 300 (87 # 2)) (Double.index 201) = Some 28%Z.
Proof. repeat split; vm_compute; reflexivity. Qed.

End MachineFloats.

(** ** Remaining seconds, pause and resume *)

(** The idealised timer, with exact arithmetic: in every state the
    remaining seconds are max(0, ceil(T - E)) for the total T and the
    elapsed time E of that state.  What the machine shows is stated after
    it. *)
Lemma remaining_display_exact (s : State) :
  reachable s ->
  secondsLeft s
    = Z.max 0 (Qceiling (inject_Z (totalSecondsRef s) - elapsed s)) /\
  0 <= secondsLeft s /\
  (inject_Z (totalSecondsRef s) - elapsed s <= inject_Z (secondsLeft s))%Q /\
  (0 < secondsLeft s ->
     (inject_Z (secondsLeft s)
        < inject_Z (totalSecondsRef s) - elapsed s + 1)%Q) /\
  (secondsLeft s = 0 <-> (inject_Z (totalSecondsRef s) <= elapsed s)%Q) /\
  (forall env now, running s = true ->
     secondsLeft (handle env (AnimationFrame now) s)
       = Z.max 0
           (Qceiling (inject_Z (totalSecondsRef s) - elapsedAt now s))).
Proof.
  intros H. pose proof (reachable_Inv s H) as [_ _ _ _ Hl _ _].
  destruct (remainingSeconds_spec (totalSecondsRef s) (elapsed s))
    as [A1 [A2 [A3 A4]]].
  rewrite <- Hl in A1, A2, A3, A4.
  split; [ exact Hl | ]. split; [ exact A1 | ]. split; [ exact A2 | ].
  split; [ exact A3 | ]. split; [ exact A4 | ].
  intros env now R.
  destruct (reachable_running s H R) as [h [_ Hf]].
  fold (remainingSeconds (totalSecondsRef s) (elapsedAt now s)).
  destruct (Qle_bool (inject_Z (totalSecondsRef s)) (elapsedAt now s)) eqn:E.
  - destruct (frame_complete env now s h R Hf E) as [_ [_ [_ [-> _]]]].
    symmetry. apply remainingSeconds_spec. now apply Qle_bool_iff.
  - now destruct (frame_continue env now s h R Hf E) as [_ [_ [-> _]]].
Qed.

(** C2: the subtraction of line 115 is rounded to binary64 before
    [Math.ceil] sees it, so for a total T and a stored elapsed time E (a
    finite non-negative binary64 value) the remaining seconds shown are
    max(0, ceil(fl(T - E))).  That value is never negative, it is
    max(0, ceil(T - E)) or one less, so it never exceeds the true remaining
    time rounded up, and it is 0 exactly when E >= T.  A timer that has not
    run (E = 0) shows T, and whatever a frame stores is such an E together
    with the seconds computed from it in this way. *)
Theorem remaining_display_double (T : Z) (E : Q) :
  (0 <= T < 2 ^ 53)%Z ->
  Double.isDouble E -> (0 <= E)%Q -> (E < Double.pow2 1024)%Q ->
  (exists v,
     Double.left T E = Some v /\
     v = Z.max 0 (Qceiling (Double.round (inject_Z T - E))) /\
     0 <= v /\
     Z.max 0 (Qceiling (inject_Z T - E)) - 1 <= v
       <= Z.max 0 (Qceiling (inject_Z T - E)) /\
     (v = 0 <-> (inject_Z T <= E)%Q)) /\
  Double.left T 0 = Some T /\
  (forall now start E' v' fin,
     Double.tick T now start = Some (E', v', fin) ->
     Double.isDouble E' /\ (0 <= E')%Q /\ (E' < Double.pow2 1024)%Q /\
     Double.left T E' = Some v').
Proof.
  intros HT HE H0 Hfin. split; [ | split ].
  - eexists. split; [ now apply left_value | ].
    split; [ reflexivity | ]. now apply left_spec.
  - now apply left_zero_elapsed.
  - intros now start E' v' fin. now apply tick_stored.
Qed.

(** A five-minute timer with E = 1 - 2^-53 elapsed shows 299. *)
Lemma remaining_display_double_witness :
  exists v,
    Double.left 300 (9007199254740991 # 9007199254740992) = Some v /\
    v = 299 /\
    (v = 0 <-> (inject_Z 300 <= 9007199254740991 # 9007199254740992)%Q).
Proof.
  destruct (remaining_display_double 300 (9007199254740991 # 9007199254740992))
    as [[v [H1 [H2 [_ [_ H5]]]]] _].
  - lia.
  - vm_compute. reflexivity.
  - vm_compute. discriminate.
  - vm_compute. reflexivity.
  - exists v. split; [ exact H1 | ]. split; [ | exact H5 ].
    rewrite H2. vm_compute. reflexivity.
Defined.

(** C2 with the exact difference in place of the rounded one fails: a
    five-minute timer started at clock reading 1000.1 gets a frame at
    2000.1.  The frame stores E = 1 - 2^-53 (0.9999999999999999) and shows
    299, while max(0, ceil(300 - E)) is 300. *)
Lemma remaining_display_counterexample :
  exists start E v,
    Double.anchor (Double.round (10001 # 10)) 0 = Some start /\
    Double.tick 300 (Double.round (20001 # 10)) start = Some (E, v, false) /\
    (E == 9007199254740991 # 9007199254740992)%Q /\
    v = 299 /\
    Z.max 0 (Qceiling (inject_Z 300 - E)) = 300 /\
    v <> Z.max 0 (Qceiling (inject_Z 300 - E)).
Proof.
  eexists. eexists. eexists.
  split; [ vm_compute; reflexivity | ].
  split; [ vm_compute; reflexivity | ].
  split; [ vm_compute; reflexivity | ].
  split; [ reflexivity | ].
  split; [ vm_compute; reflexivity | ].
  vm_compute. discriminate.
Qed.

(** The idealised timer, with exact arithmetic: resuming at clock reading
    p anchors the start at p - E*1000 milliseconds, so the timer reads E at
    the moment of resuming and E + (now - p)/1000 at any later frame.  What
    the machine reads is stated after it. *)
Lemma pause_resume_exact
  (env1 env2 env3 : Env) (wait : list (Env * Q)) (now : Q) (s : State) :
  reachable s -> running s = true -> (perfNow env2 <= now)%Q ->
  let paused := handle env1 ClickStartStop s in
  let waited := run (framesOnly wait) paused in
  let resumed := handle env2 ClickStartStop waited in
  running paused = false /\ frames paused = [] /\
  elapsed paused = elapsed s /\
  waited = paused /\
  running resumed = true /\
  elapsed resumed = elapsed s /\
  startTimestampRef resumed
    = Some (perfNow env2 - elapsed s * 1000)%Q /\
  (elapsedAt (perfNow env2) resumed == elapsed s)%Q /\
  (elapsedAt now resumed == elapsed s + (now - perfNow env2) / 1000)%Q /\
  ((elapsed s + (now - perfNow env2) / 1000
      < inject_Z (totalSecondsRef s))%Q ->
   running (handle env3 (AnimationFrame now) resumed) = true /\
   (elapsed (handle env3 (AnimationFrame now) resumed)
      == elapsed s + (now - perfNow env2) / 1000)%Q).
Proof.
  intros Hreach R Hclock paused waited resumed.
  pose proof (reachable_Inv s Hreach) as [_ _ Hlo _ _ _ _].
  destruct (reachable_running s Hreach R) as [h [Hraf Hf]].
  assert (P : running paused = false /\ frames paused = [] /\
              elapsed paused = elapsed s /\
              totalSecondsRef paused = totalSecondsRef s).
  { unfold paused. rewrite handle_ClickStartStop_pause by assumption.
    clear - Hraf Hf. open_state s. fields. subst. fields.
    rewrite remove_single. now repeat split. }
  destruct P as [P1 [P2 [P3 P4]]].
  assert (W : waited = paused) by now apply framesOnly_idle.
  assert (Q0 : running resumed = true /\
               elapsed resumed = elapsed s /\
               startTimestampRef resumed
                 = Some (perfNow env2 - elapsed s * 1000)%Q /\
               totalSecondsRef resumed = totalSecondsRef s /\
               frames resumed = [nextHandle paused]).
  { unfold resumed. rewrite W.
    rewrite handle_ClickStartStop_start by assumption.
    rewrite <- P3, <- P4. clear - P2. unfold effectRunning.
    open_state paused. fields. subst. now repeat split. }
  destruct Q0 as [Q1 [Q2 [Q3 [Q4 Q5]]]].
  assert (A : forall t, (perfNow env2 <= t)%Q ->
            (elapsedAt t resumed == elapsed s + (t - perfNow env2) / 1000)%Q).
  { intros t Ht. unfold elapsedAt, startTimestamp. rewrite Q3.
    now apply resumed_reading. }
  assert (E : (elapsed s + (now - perfNow env2) / 1000
                 < inject_Z (totalSecondsRef s))%Q ->
              Qle_bool (inject_Z (totalSecondsRef resumed))
                (elapsedAt now resumed) = false).
  { intros H. destruct (Qle_bool _ _) eqn:E; [ | reflexivity ].
    apply Qle_bool_iff in E. rewrite (A now Hclock), Q4 in E.
    exfalso. exact (Qlt_not_le _ _ H E). }
  split; [ exact P1 | ]. split; [ exact P2 | ]. split; [ exact P3 | ].
  split; [ exact W | ]. split; [ exact Q1 | ]. split; [ exact Q2 | ].
  split; [ exact Q3 | ].
  split; [ rewrite (A (perfNow env2)) by apply Qle_refl; field | ].
  split; [ now apply A | ].
  intros H.
  destruct (frame_continue env3 now resumed _ Q1 Q5 (E H)) as [F1 [F2 _]].
  split; [ exact F1 | ]. rewrite F2. now apply A.
Qed.




(** C4: a click that changes the selected duration to D, in any state the
    component can be in (running or not), leaves the timer stopped with no
    frame request pending (so later frames do nothing), elapsed 0, remaining
    seconds and total both D*60, the curve sampled afresh from D, and the
    break selection back to none. *)
Theorem duration_change_resets (env : Env) (d : Z) (s : State) :
  reachable s -> d <> selectedMinutes s ->
  let s' := handle env (ClickDuration d) s in
  selectedMinutes s' = d /\
  running s' = false /\
  frames s' = [] /\
  elapsed s' = 0%Q /\
  secondsLeft s' = d * 60 /\
  totalSecondsRef s' = d * 60 /\
  curveRef s' = Curve.sampleProductivityCurve d Curve.defaultSamples /\
  breakMinutes s' = None /\
  forall env' now, handle env' (AnimationFrame now) s' = s'.
Proof.
  intros Hreach Hd s'.
  pose proof (reachable_Inv s Hreach) as [_ _ _ _ _ _ Hloop].
  assert (P : selectedMinutes s' = d /\ running s' = false /\
              frames s' = [] /\ elapsed s' = 0%Q /\
              secondsLeft s' = d * 60 /\ totalSecondsRef s' = d * 60 /\
              curveRef s'
                = Curve.sampleProductivityCurve d Curve.defaultSamples /\
              breakMinutes s' = None).
  { unfold s'. rewrite handle_ClickDuration_changed by assumption.
    clear - Hloop. unfold loopInv, effectSelectedMinutes in *.
    open_state s. fields. destruct run.
    - destruct Hloop as [h [-> ->]]. fields. rewrite remove_single.
      simpl remove. now repeat split.
    - subst frs. destruct raf; fields; simpl remove; now repeat split. }
  destruct P as [P1 [P2 [P3 [P4 [P5 [P6 [P7 P8]]]]]]].
  split; [ exact P1 | ]. split; [ exact P2 | ]. split; [ exact P3 | ].
  split; [ exact P4 | ]. split; [ exact P5 | ]. split; [ exact P6 | ].
  split; [ exact P7 | ]. split; [ exact P8 | ].
  intros env' now. now apply handle_AnimationFrame_idle.
Qed.

(** The running 5-minute timer of [midRunState], with a break chosen,
    switched to 60 minutes. *)
Lemma duration_change_resets_witness :
  let s := handle (mkEnv 2600 0) (ClickBreak 2) midRunState in
  let s' := handle (mkEnv 2700 0) (ClickDuration 60) s in
  running s = true /\ breakMinutes s = Some 2 /\
  running s' = false /\ frames s' = [] /\ elapsed s' = 0%Q /\
  secondsLeft s' = 3600 /\ breakMinutes s' = None.
Proof.
  destruct (duration_change_resets (mkEnv 2700 0) 60
              (handle (mkEnv 2600 0) (ClickBreak 2) midRunState))
    as [_ [H2 [H3 [H4 [H5 [_ [_ [H8 _]]]]]]]].
  - apply reachable_handle; [ apply midRunState_reachable | ].
    exists [1; 2]. split; [ reflexivity | simpl; tauto ].
  - vm_compute. discriminate.
  - repeat split; assumption.
Defined.

(** * Further properties *)

(** Case analysis on an event in a state that satisfies [Inv], with the
    state after the event written out. *)
Ltac by_event env e s HI :=
  let Hloop := fresh "Hloop" in
  let R := fresh "R" in
  let Hne := fresh "Hne" in
  destruct e as [d | b | | | | v | | i | now | ];
  [ destruct (Z.eq_dec d (selectedMinutes s)) as [-> | Hne];
    [ rewrite handle_ClickDuration_same
    | rewrite (handle_ClickDuration_changed env d s Hne);
      unfold effectSelectedMinutes ]
  | rewrite handle_ClickBreak
  | rewrite handle_ClickNoBreak
  | destruct (running s) eqn:R;
    [ rewrite (handle_ClickStartStop_pause env s R)
    | rewrite (handle_ClickStartStop_start env s R); unfold effectRunning ]
  | rewrite handle_ClickReset; unfold resetTimer
  | rewrite handle_ChangeNewTask
  | rewrite handle_ClickAdd; unfold addTask
  | rewrite handle_ClickTask; unfold toggleTask
  | pose proof (inv_loop s HI) as Hloop; unfold loopInv in Hloop;
    destruct (running s) eqn:R;
    [ let h := fresh "h" in
      let Hraf := fresh "Hraf" in
      let Hf := fresh "Hf" in
      destruct Hloop as [h [Hraf Hf]];
      rewrite (handle_AnimationFrame_running env now s h R Hf);
      unfold tick, elapsedAt, startTimestamp
    | rewrite (handle_AnimationFrame_idle env now s Hloop) ]
  | rewrite handle_CelebrationTimeout; unfold celebrationTimeout ].

(** Finishes a case of [by_event]: names the fields, computes the state and
    splits on the tests left in it. *)
Ltac crunch s :=
  open_state s; fields;
  repeat match goal with
         | |- context [if ?b then _ else _] => destruct b eqn:?; fields
         | |- context [match ?x with Some _ => _ | None => _ end] =>
             destruct x eqn:?; fields
         | |- context [match ?x with O => _ | S _ => _ end] =>
             destruct x eqn:?; fields
         end;
  subst; fields; try congruence.

(** ** The time display *)

Lemma sameText_eq (a b : JsString.t) : sameText a b = true -> a = b.
Proof. unfold sameText. now destruct (list_eq_dec N.eq_dec a b). Qed.

(** A property checked on every number below a bound. *)
Lemma checked_below (P : Z -> bool) (bound : nat) :
  forallb (fun k => P (Z.of_nat k)) (seq 0 bound) = true ->
  forall n, 0 <= n < Z.of_nat bound -> P n = true.
Proof.
  intros H n Hn. rewrite forallb_forall in H.
  rewrite <- (Z2Nat.id n) by lia. apply H. apply in_seq. lia.
Qed.

Lemma pad2_two_digits (n : Z) :
  0 <= n < 100 ->
  padStart 2 48 (String_of_Z n) = [digit (n / 10); digit (n mod 10)].
Proof.
  intros H. apply sameText_eq.
  apply (checked_below
           (fun n => sameText (padStart 2 48 (String_of_Z n))
                       [digit (n / 10); digit (n mod 10)]) 100);
    [ vm_compute; reflexivity | exact H ].
Qed.

Lemma pad2_three_digits (n : Z) :
  100 <= n < 1000 ->
  padStart 2 48 (String_of_Z n)
  = [digit (n / 100); digit (n / 10 mod 10); digit (n mod 10)].
Proof.
  intros H. apply sameText_eq.
  assert (H' : (n <? 100) ||
               sameText (padStart 2 48 (String_of_Z n))
                 [digit (n / 100); digit (n / 10 mod 10); digit (n mod 10)]
               = true).
  { apply (checked_below
             (fun n => (n <? 100) ||
                       sameText (padStart 2 48 (String_of_Z n))
                         [digit (n / 100); digit (n / 10 mod 10);
                          digit (n mod 10)]) 1000);
      [ vm_compute; reflexivity | lia ]. }
  apply orb_true_iff in H'. destruct H' as [H' | H']; [ | exact H' ].
  apply Z.ltb_lt in H'. lia.
Qed.

(** X1: for 0 <= sec < 6000 the display is five code units: the two
    decimal digits of the minutes sec/60, a colon, and the two decimal
    digits of the seconds sec mod 60, each padded with a zero. *)
Theorem formatTime_mmss (sec : Z) :
  0 <= sec < 6000 ->
  formatTime sec
  = [digit (sec / 60 / 10); digit (sec / 60 mod 10); 58%N;
     digit (sec mod 60 / 10); digit (sec mod 60 mod 10)].
Proof.
  intros H. unfold formatTime. cbv zeta.
  rewrite Z.rem_mod_nonneg by lia.
  rewrite (pad2_two_digits (sec / 60)), (pad2_two_digits (sec mod 60)).
  - reflexivity.
  - pose proof (Z.mod_pos_bound sec 60). lia.
  - split; [ apply Z.div_pos; lia | apply Z.div_lt_upper_bound; lia ].
Qed.

Lemma formatTime_mmss_witness :
  formatTime 299 = JsString.ofString "04:59".
Proof.
  rewrite (formatTime_mmss 299) by lia. reflexivity.
Defined.

(** X2: from 100 minutes on (6000 <= sec < 60000) [padStart] cuts nothing:
    the display has three minute digits, a colon and two second digits. *)
Theorem formatTime_long (sec : Z) :
  6000 <= sec < 60000 ->
  formatTime sec
  = [digit (sec / 60 / 100); digit (sec / 60 / 10 mod 10);
     digit (sec / 60 mod 10); 58%N;
     digit (sec mod 60 / 10); digit (sec mod 60 mod 10)].
Proof.
  intros H. unfold formatTime. cbv zeta.
  rewrite Z.rem_mod_nonneg by lia.
  rewrite (pad2_three_digits (sec / 60)), (pad2_two_digits (sec mod 60)).
  - reflexivity.
  - pose proof (Z.mod_pos_bound sec 60). lia.
  - split; [ apply Z.div_le_lower_bound; lia
           | apply Z.div_lt_upper_bound; lia ].
Qed.

Lemma formatTime_long_witness :
  formatTime 7200 = JsString.ofString "120:00".
Proof.
  rewrite (formatTime_long 7200) by lia. reflexivity.
Defined.

(** ** Invariants of the component *)

Lemma reachable_Inv_ind (P : State -> Prop) :
  P initialState ->
  (forall env e s, Inv s -> P s -> offered s e -> P (handle env e s)) ->
  forall s, reachable s -> P s.
Proof.
  intros H0 Hstep s H. induction H as [ env | env e s Hr IH Ho ].
  - now rewrite mount_initialState.
  - apply Hstep; auto. now apply reachable_Inv.
Qed.

Lemma DURATIONS_range (d : Z) : In d DURATIONS -> 5 <= d <= 120.
Proof. unfold DURATIONS. simpl. lia. Qed.

(** X3: in every state the component can be in, the selected duration is
    one of [DURATIONS], the total is that duration times 60 (between 300 and
    7200 seconds), the elapsed time lies between 0 and the total, and the
    remaining seconds shown lie between 0 and the total. *)
Theorem timer_bounds (s : State) :
  reachable s ->
  In (selectedMinutes s) DURATIONS /\
  totalSecondsRef s = selectedMinutes s * 60 /\
  300 <= totalSecondsRef s <= 7200 /\
  (0 <= elapsed s <= inject_Z (totalSecondsRef s))%Q /\
  0 <= secondsLeft s <= totalSecondsRef s.
Proof.
  intros H. apply reachable_Inv in H. destruct H as [Hd Ht Hlo Hhi Hl _ _].
  pose proof (DURATIONS_range _ Hd) as Hr.
  split; [ exact Hd | ]. split; [ exact Ht | ]. split; [ lia | ].
  split; [ now split | ].
  rewrite Hl. unfold remainingSeconds. split; [ lia | ].
  apply Z.max_lub; [ lia | ].
  rewrite <- (Qceiling_Z (totalSecondsRef s)) at 2.
  apply Qceiling_resp_le.
  rewrite <- (Qplus_0_r (inject_Z (totalSecondsRef s))) at 2.
  apply Qplus_le_r. change 0%Q with (- 0)%Q. now apply Qopp_le_compat.
Qed.

Lemma timer_bounds_witness :
  0 <= secondsLeft midRunState <= totalSecondsRef midRunState.
Proof.
  destruct (timer_bounds midRunState midRunState_reachable)
    as [_ [_ [_ [_ H]]]]. exact H.
Defined.

(** X4: in every state the component can be in at most one frame request
    is pending; one is pending exactly while the timer runs, and it is the
    request [rafRef] holds, the one a pause, reset or duration change
    cancels. *)
Theorem one_frame_loop (s : State) :
  reachable s ->
  (length (frames s) <= 1)%nat /\
  (running s = true <-> frames s <> []) /\
  (forall h, In h (frames s) -> rafRef s = Some h).
Proof.
  intros H. apply reachable_Inv in H. destruct H as [_ _ _ _ _ _ Hloop].
  unfold loopInv in Hloop. destruct (running s).
  - destruct Hloop as [h [Hraf Hf]]. rewrite Hf. simpl.
    split; [ lia | ]. split; [ split; congruence | ].
    intros h' [<- | []]. exact Hraf.
  - rewrite Hloop. simpl. split; [ lia | ]. split; [ split; congruence | ].
    intros h [].
Qed.

Lemma one_frame_loop_witness :
  (length (frames midRunState) <= 1)%nat /\
  (running midRunState = true <-> frames midRunState <> []).
Proof.
  destruct (one_frame_loop midRunState midRunState_reachable)
    as [H1 [H2 _]]. split; [ exact H1 | exact H2 ].
Defined.

Lemma breakInv_handle (env : Env) (e : Event) (s : State) :
  Inv s -> breakInv s -> offered s e -> breakInv (handle env e s).
Proof.
  intros HI HB Ho. unfold breakInv in *.
  by_event env e s HI; crunch s; solve [ auto | exact I ].
Qed.

Lemma reachable_breakInv (s : State) : reachable s -> breakInv s.
Proof.
  apply reachable_Inv_ind; [ exact I | ].
  intros env e s0 HI HB Ho. now apply breakInv_handle.
Qed.

Lemma BREAK_RECOMMENDATIONS_defined (d : Z) :
  In d DURATIONS ->
  exists bs, BREAK_RECOMMENDATIONS d = Some bs /\ bs <> [] /\
             forall b, In b bs -> 0 < b < d.
Proof.
  unfold DURATIONS. simpl.
  intros [<- | [<- | [<- | [<- | [<- | [<- | [<- | []]]]]]]];
    eexists; (split; [ reflexivity | split; [ discriminate | ] ]);
    simpl; intros b Hb; lia.
Qed.

(** X5: in every state the component can be in the table of recommended
    breaks has a non-empty entry for the selected duration (the render never
    reads a missing key), and a selected break is 0 ("No break") or one of
    the recommendations for the selected duration, hence shorter than the
    session: a break chosen for another duration never survives. *)
Theorem break_selection_offered (s : State) :
  reachable s ->
  (exists bs, BREAK_RECOMMENDATIONS (selectedMinutes s) = Some bs /\
              bs <> []) /\
  (forall b, breakMinutes s = Some b ->
     (b = 0 \/
      exists bs, BREAK_RECOMMENDATIONS (selectedMinutes s) = Some bs /\
                 In b bs) /\
     0 <= b < selectedMinutes s).
Proof.
  intros H. pose proof (reachable_breakInv s H) as HB.
  pose proof (inv_duration s (reachable_Inv s H)) as Hd.
  destruct (BREAK_RECOMMENDATIONS_defined _ Hd) as [bs [E [Hne Hlt]]].
  split; [ now exists bs | ].
  intros b Hb. unfold breakInv in HB. rewrite Hb in HB.
  split; [ exact HB | ].
  destruct HB as [-> | [bs' [E' Hin]]].
  - apply DURATIONS_range in Hd. lia.
  - rewrite E in E'. injection E' as <-. apply Hlt in Hin. lia.
Qed.

Lemma break_selection_offered_witness :
  0 <= 2 < selectedMinutes
             (handle (mkEnv 2600 0) (ClickBreak 2) midRunState).
Proof.
  apply (break_selection_offered
           (handle (mkEnv 2600 0) (ClickBreak 2) midRunState)).
  - apply reachable_handle; [ apply midRunState_reachable | ].
    exists [1; 2]. split; [ reflexivity | simpl; tauto ].
  - reflexivity.
Defined.

Lemma reachable_run (evs : list (Env * Event)) (s : State) :
  reachable s -> offeredRun evs s -> reachable (run evs s).
Proof.
  revert s. induction evs as [ | [env e] evs IH ]; intros s Hr Ho.
  - exact Hr.
  - destruct Ho as [Ho1 Ho2]. unfold run in *. simpl.
    apply IH; [ now apply reachable_handle | exact Ho2 ].
Qed.

(** ** The session counter *)

(** X6: the session counter is never negative, and an event changes it
    only when it is a frame that finds the running timer at or past its
    total, which adds exactly 1; pause, reset, a duration change and every
    other event leave it as it is. *)
Theorem sessions_counted_on_completion_only (env : Env) (e : Event) (s : State) :
  reachable s ->
  0 <= sessionsCompleted s /\
  sessionsCompleted (handle env e s)
  = sessionsCompleted s + (if completes e s then 1 else 0).
Proof.
  intros H. split.
  - revert s H. apply reachable_Inv_ind; [ reflexivity | ].
    intros env0 e0 s HI IH _. by_event env0 e0 s HI; crunch s; lia.
  - pose proof (reachable_Inv s H) as HI. unfold completes.
    by_event env e s HI; crunch s; lia.
Qed.

Lemma sessions_counted_on_completion_only_witness :
  sessionsCompleted (handle (mkEnv 2600 0) ClickReset midRunState)
  = sessionsCompleted midRunState + 0.
Proof.
  apply (sessions_counted_on_completion_only (mkEnv 2600 0) ClickReset
           midRunState midRunState_reachable).
Defined.

(** ** More on the task list *)

Lemma prefix_refl {A : Type} (l : list A) : prefix l l.
Proof. exists []. now rewrite app_nil_r. Qed.

Lemma prefix_trans {A : Type} (l1 l2 l3 : list A) :
  prefix l1 l2 -> prefix l2 l3 -> prefix l1 l3.
Proof.
  intros [r1 ->] [r2 ->]. exists (r1 ++ r2). now rewrite app_assoc.
Qed.

Lemma toggleOne_text (i : Z) (task : Task) :
  text (toggleOne i task) = text task.
Proof. unfold toggleOne. now destruct (id task =? i). Qed.

Lemma toggleTask_texts (i : Z) (l : list Task) :
  map text (map (toggleOne i) l) = map text l.
Proof. rewrite map_map. apply map_ext. apply toggleOne_text. Qed.

Lemma tasks_kept_handle (env : Env) (e : Event) (s : State) :
  Inv s ->
  prefix (map id (tasks s)) (map id (tasks (handle env e s))) /\
  prefix (map text (tasks s)) (map text (tasks (handle env e s))).
Proof.
  intros HI.
  by_event env e s HI; crunch s;
    rewrite ?toggleTask_ids, ?toggleTask_texts, ?map_app;
    split; solve [ apply prefix_refl | eexists; reflexivity ].
Qed.

(** X7: no task is ever removed or renamed: after any run of offered
    events the identifiers and the texts of the tasks that were there are a
    prefix of the new ones, in the same order, so the list never gets
    shorter. *)
Theorem tasks_never_removed (evs : list (Env * Event)) (s : State) :
  reachable s -> offeredRun evs s ->
  prefix (map id (tasks s)) (map id (tasks (run evs s))) /\
  prefix (map text (tasks s)) (map text (tasks (run evs s))) /\
  (length (tasks s) <= length (tasks (run evs s)))%nat.
Proof.
  intros Hr Ho.
  assert (P : prefix (map id (tasks s)) (map id (tasks (run evs s))) /\
              prefix (map text (tasks s)) (map text (tasks (run evs s)))).
  { revert s Hr Ho. induction evs as [ | [env e] evs IH ]; intros s Hr Ho.
    - split; apply prefix_refl.
    - destruct Ho as [Ho1 Ho2].
      destruct (tasks_kept_handle env e s (reachable_Inv s Hr)) as [A1 A2].
      destruct (IH (handle env e s) (reachable_handle env e s Hr Ho1) Ho2)
        as [B1 B2].
      unfold run in *. simpl. split; eapply prefix_trans; eassumption. }
  destruct P as [P1 P2]. split; [ exact P1 | ]. split; [ exact P2 | ].
  destruct P1 as [rest E]. apply (f_equal (@length Z)) in E.
  rewrite length_app, !length_map in E. lia.
Qed.

Lemma tasks_never_removed_witness :
  prefix (map id (tasks midRunState))
    (map id (tasks (run sameMillisecondAdds midRunState))).
Proof.
  apply (tasks_never_removed sameMillisecondAdds midRunState).
  - apply midRunState_reachable.
  - simpl. tauto.
Defined.

Lemma trimStart_head (l : JsString.t) (c : N) (r : JsString.t) :
  JsString.trimStart l = c :: r -> JsString.isWhiteSpace c = false.
Proof.
  induction l as [ | a l IH ]; simpl; [ discriminate | ].
  destruct (JsString.isWhiteSpace a) eqn:E; [ exact IH | ].
  intros H. injection H as <- _. exact E.
Qed.

Lemma trimStart_fixed (c : N) (r : JsString.t) :
  JsString.isWhiteSpace c = false -> JsString.trimStart (c :: r) = c :: r.
Proof. intros H. simpl. now rewrite H. Qed.

Lemma trimStart_keeps_last (l : JsString.t) (c : N) :
  JsString.isWhiteSpace c = false ->
  exists p, JsString.trimStart (l ++ [c]) = p ++ [c].
Proof.
  intros H. induction l as [ | a l IH ]; simpl.
  - rewrite H. now exists [].
  - destruct (JsString.isWhiteSpace a); [ exact IH | ].
    now exists (a :: l).
Qed.

(** A text whose first and last code units are not white space is left as
    it is. *)
Lemma trim_fixed (w : JsString.t) (c h : N) (r t : JsString.t) :
  w = c :: r -> JsString.isWhiteSpace c = false ->
  rev w = h :: t -> JsString.isWhiteSpace h = false ->
  JsString.trim w = w.
Proof.
  intros Hw Hc Hr Hh. unfold JsString.trim, JsString.trimEnd.
  rewrite Hw, (trimStart_fixed c r Hc), <- Hw, Hr, (trimStart_fixed h t Hh).
  now rewrite <- Hr, rev_involutive.
Qed.

(** What [trim] returns is empty or starts and ends with code units that
    are not white space. *)
Lemma trim_result (v : JsString.t) :
  JsString.trim v = [] \/
  exists c r h t,
    JsString.trim v = c :: r /\ JsString.isWhiteSpace c = false /\
    rev (JsString.trim v) = h :: t /\ JsString.isWhiteSpace h = false.
Proof.
  unfold JsString.trim, JsString.trimEnd.
  destruct (JsString.trimStart v) as [ | c r ] eqn:A; [ now left | right ].
  pose proof (trimStart_head _ _ _ A) as Hc.
  change (rev (c :: r)) with (rev r ++ [c]).
  destruct (trimStart_keeps_last (rev r) c Hc) as [p Hp].
  destruct (JsString.trimStart (rev r ++ [c])) as [ | h t ] eqn:B.
  - destruct p; discriminate.
  - pose proof (trimStart_head _ _ _ B) as Hh.
    exists c, (rev p), h, t.
    split; [ now rewrite Hp, rev_app_distr | ].
    split; [ exact Hc | ].
    split; [ apply rev_involutive | exact Hh ].
Qed.

(** Trimming twice is trimming once. *)
Lemma trim_idempotent (v : JsString.t) :
  JsString.trim (JsString.trim v) = JsString.trim v.
Proof.
  destruct (trim_result v) as [E | [c [r [h [t [E [Hc [Hr Hh]]]]]]]].
  - now rewrite E.
  - now apply (trim_fixed _ c h r t).
Qed.

Lemma trimmed_handle (env : Env) (e : Event) (s : State) :
  Inv s ->
  Forall (fun task => trimmed (text task)) (tasks s) ->
  Forall (fun task => trimmed (text task)) (tasks (handle env e s)).
Proof.
  intros HI HT.
  by_event env e s HI; crunch s; try assumption.
  - apply Forall_app. split; [ assumption | ].
    constructor; [ | constructor ]. simpl. split.
    + intros E. rewrite E in *. discriminate.
    + apply trim_idempotent.
  - apply Forall_map. eapply Forall_impl; [ | exact HT ].
    intros task Ht. now rewrite toggleOne_text.
Qed.

(** X8: the text of every task in the list is non-empty and has no white
    space at either end ([trim] leaves it as it is). *)
Theorem task_texts_trimmed (s : State) :
  reachable s ->
  Forall (fun task => text task <> [] /\ JsString.trim (text task) = text task)
    (tasks s).
Proof.
  revert s. apply reachable_Inv_ind.
  - repeat constructor; discriminate.
  - intros env e s HI IH _. now apply trimmed_handle.
Qed.

Lemma task_texts_trimmed_witness :
  Forall (fun task => text task <> [] /\ JsString.trim (text task) = text task)
    (tasks midRunState).
Proof. apply (task_texts_trimmed midRunState midRunState_reachable). Defined.

Lemma toggleOne_involutive (i : Z) (task : Task) :
  toggleOne i (toggleOne i task) = task.
Proof.
  destruct task as [k t d]. unfold toggleOne. simpl.
  destruct (k =? i) eqn:E; simpl; rewrite ?E; [ | reflexivity ].
  now rewrite negb_involutive.
Qed.

Lemma toggleOne_comm (i j : Z) (task : Task) :
  toggleOne i (toggleOne j task) = toggleOne j (toggleOne i task).
Proof.
  destruct task as [k t d]. unfold toggleOne. simpl.
  destruct (k =? i) eqn:Ei, (k =? j) eqn:Ej; simpl; rewrite ?Ei, ?Ej;
    reflexivity.
Qed.

(** X9: clicking the same task twice restores the whole state, and clicks
    on two tasks give the same state in either order. *)
Theorem toggle_twice_restores (env env' : Env) (i j : Z) (s : State) :
  handle env' (ClickTask i) (handle env (ClickTask i) s) = s /\
  handle env' (ClickTask i) (handle env (ClickTask j) s)
  = handle env' (ClickTask j) (handle env (ClickTask i) s).
Proof.
  rewrite !handle_ClickTask. unfold toggleTask. open_state s. fields. split.
  - f_equal. rewrite map_map. rewrite <- (map_id tks) at 2.
    apply map_ext. apply toggleOne_involutive.
  - f_equal. rewrite !map_map. apply map_ext. intros a. apply toggleOne_comm.
Qed.

(** X10: toggling an identifier that no task has changes nothing. *)
Theorem toggle_unknown_id (env : Env) (i : Z) (s : State) :
  ~ In i (map id (tasks s)) -> handle env (ClickTask i) s = s.
Proof.
  intros H. rewrite handle_ClickTask. unfold toggleTask. open_state s. fields.
  f_equal. rewrite <- (map_id tks) at 2. apply map_ext_in.
  intros a Ha. unfold toggleOne.
  destruct (Z.eqb_spec (id a) i) as [E | E]; [ | reflexivity ].
  exfalso. apply H. rewrite <- E. now apply in_map.
Qed.

Lemma toggle_unknown_id_witness :
  handle (mkEnv 0 0) (ClickTask 3) initialState = initialState.
Proof.
  apply (toggle_unknown_id (mkEnv 0 0) 3 initialState).
  simpl. intros [H | [H | []]]; discriminate.
Defined.

(** ** More on the timer *)

(** X11: whenever the celebration overlay is shown, a timer that will
    hide it is pending: the overlay cannot stay for good. *)
Theorem celebration_has_timer (s : State) :
  reachable s -> celebrate s = true -> (0 < timers s)%nat.
Proof.
  revert s.
  apply (reachable_Inv_ind (fun s => celebrate s = true -> (0 < timers s)%nat));
    [ discriminate | ].
  intros env e s HI IH _.
  by_event env e s HI; crunch s; auto; lia.
Qed.

Lemma celebration_has_timer_witness :
  (0 < timers
         (handle (mkEnv 301000 0) (AnimationFrame 301000) midRunState))%nat.
Proof.
  apply (celebration_has_timer
           (handle (mkEnv 301000 0) (AnimationFrame 301000) midRunState)).
  - apply reachable_handle; [ apply midRunState_reachable | exact I ].
  - reflexivity.
Defined.

(** X12: Reset, from any state the component can be in, stops the timer
    with no frame request pending, sets elapsed to 0 and the remaining
    seconds to the total, and keeps the selected duration, the total, the
    break selection, the curve, the session counter and the tasks; a second
    Reset changes nothing. *)
Theorem reset_keeps_configuration (env env' : Env) (s : State) :
  reachable s ->
  let s' := handle env ClickReset s in
  running s' = false /\ frames s' = [] /\
  elapsed s' = 0%Q /\ secondsLeft s' = totalSecondsRef s /\
  selectedMinutes s' = selectedMinutes s /\
  totalSecondsRef s' = totalSecondsRef s /\
  breakMinutes s' = breakMinutes s /\
  curveRef s' = curveRef s /\
  sessionsCompleted s' = sessionsCompleted s /\
  tasks s' = tasks s /\
  handle env' ClickReset s' = s'.
Proof.
  intros H s'. pose proof (reachable_Inv s H) as HI.
  pose proof (inv_total s HI) as Ht. pose proof (inv_loop s HI) as Hloop.
  unfold loopInv in Hloop. unfold s'. rewrite !handle_ClickReset.
  unfold resetTimer. open_state s. fields. subst total.
  destruct run.
  - destruct Hloop as [h [-> ->]]. fields. rewrite remove_single.
    simpl remove. now repeat split.
  - subst frs. destruct raf; fields; simpl remove; now repeat split.
Qed.

Lemma reset_keeps_configuration_witness :
  elapsed (handle (mkEnv 2600 0) ClickReset midRunState) = 0%Q /\
  secondsLeft (handle (mkEnv 2600 0) ClickReset midRunState) = 300.
Proof.
  destruct (reset_keeps_configuration (mkEnv 2600 0) (mkEnv 2600 0)
              midRunState midRunState_reachable)
    as [_ [_ [H3 [H4 _]]]].
  split; [ exact H3 | exact H4 ].
Defined.

(** X13: a click on the duration that is already selected changes
    nothing: a running timer keeps running and keeps its elapsed time. *)
Theorem reselect_duration_changes_nothing (env : Env) (d : Z) (s : State) :
  d = selectedMinutes s -> handle env (ClickDuration d) s = s.
Proof. intros ->. apply handle_ClickDuration_same. Qed.

Lemma reselect_duration_changes_nothing_witness :
  handle (mkEnv 2600 0) (ClickDuration 5) midRunState = midRunState.
Proof.
  apply (reselect_duration_changes_nothing (mkEnv 2600 0) 5 midRunState).
  reflexivity.
Defined.

(** What a click on Start does to a stopped timer. *)
Lemma start_fields (env : Env) (s : State) :
  running s = false -> frames s = [] ->
  let s' := handle env ClickStartStop s in
  running s' = true /\ frames s' = [nextHandle s] /\
  startTimestampRef s' = Some (perfNow env - elapsed s * 1000)%Q /\
  totalSecondsRef s' = totalSecondsRef s /\
  elapsed s' = elapsed s /\
  sessionsCompleted s' = sessionsCompleted s.
Proof.
  intros R F s'. unfold s'. rewrite handle_ClickStartStop_start by assumption.
  unfold effectRunning. open_state s. fields. subst. now repeat split.
Qed.

(** X14: after a click on Start (or Resume) at clock reading p with
    elapsed time E, a frame at a time now >= p with E + (now - p)/1000 at or
    past the total finishes the session: running false, elapsed equal to the
    total, 0 seconds remaining, the counter one higher.  With E equal to the
    total, that is a click on Start on a finished timer without a reset,
    every later frame does so at once. *)
Theorem start_runs_to_completion (env env' : Env) (now : Q) (s : State) :
  reachable s -> running s = false ->
  (perfNow env <= now)%Q ->
  (inject_Z (totalSecondsRef s)
     <= elapsed s + (now - perfNow env) / 1000)%Q ->
  let s' := handle env' (AnimationFrame now) (handle env ClickStartStop s) in
  running s' = false /\
  elapsed s' = inject_Z (totalSecondsRef s) /\
  secondsLeft s' = 0 /\
  sessionsCompleted s' = sessionsCompleted s + 1.
Proof.
  intros H R Hclock Hdone s'.
  pose proof (reachable_Inv s H) as HI.
  destruct (Inv_idle s HI R) as [_ F].
  destruct (start_fields env s R F) as [S1 [S2 [S3 [S4 [S5 S6]]]]].
  assert (E : Qle_bool
                (inject_Z (totalSecondsRef (handle env ClickStartStop s)))
                (elapsedAt now (handle env ClickStartStop s)) = true).
  { apply Qle_bool_iff. unfold elapsedAt, startTimestamp.
    rewrite S3, S4, resumed_reading;
      [ exact Hdone | exact (inv_elapsed_lo s HI) | exact Hclock ]. }
  destruct (frame_complete env' now _ _ S1 S2 E)
    as [P1 [P2 [_ [P4 [P5 _]]]]].
  unfold s'. rewrite P1, P2, P4, P5, S4, S6. now repeat split.
Qed.

(** The finished 5-minute timer, started again without a reset: the very
    next frame finishes it once more. *)
Lemma start_runs_to_completion_witness :
  let finished :=
    handle (mkEnv 301000 0) (AnimationFrame 301000) midRunState in
  sessionsCompleted finished = 1 /\
  sessionsCompleted
    (handle (mkEnv 400016 0) (AnimationFrame 400016)
       (handle (mkEnv 400000 0) ClickStartStop finished)) = 2.
Proof.
  split; [ reflexivity | ].
  destruct (start_runs_to_completion (mkEnv 400000 0) (mkEnv 400016 0) 400016
              (handle (mkEnv 301000 0) (AnimationFrame 301000) midRunState))
    as [_ [_ [_ H]]].
  - apply reachable_handle; [ apply midRunState_reachable | exact I ].
  - reflexivity.
  - vm_compute. discriminate.
  - vm_compute. discriminate.
  - exact H.
Defined.

Lemma elapsedAt_monotone (now1 now2 : Q) (s : State) :
  (now1 <= now2)%Q -> (elapsedAt now1 s <= elapsedAt now2 s)%Q.
Proof.
  intros H. unfold elapsedAt. apply Q.max_le_compat_l.
  apply Qmult_le_compat_r; [ | discriminate ].
  now apply Qplus_le_l.
Qed.

Lemma remainingSeconds_antitone (total : Z) (e1 e2 : Q) :
  (e1 <= e2)%Q -> remainingSeconds total e2 <= remainingSeconds total e1.
Proof.
  intros H. unfold remainingSeconds. apply Z.max_le_compat_l.
  apply Qceiling_resp_le. apply Qplus_le_r. now apply Qopp_le_compat.
Qed.

(** A frame that does not finish keeps the anchor and the total. *)
Lemma frame_continue_refs (env : Env) (now : Q) (s : State) (h : nat) :
  running s = true -> frames s = [h] ->
  Qle_bool (inject_Z (totalSecondsRef s)) (elapsedAt now s) = false ->
  startTimestampRef (handle env (AnimationFrame now) s) = startTimestampRef s /\
  totalSecondsRef (handle env (AnimationFrame now) s) = totalSecondsRef s.
Proof.
  intros R F E. rewrite (handle_AnimationFrame_running env now s h R F).
  clear F. unfold tick, elapsedAt, startTimestamp in *.
  open_state s. fields. rewrite E. fields. now split.
Qed.

(** X15: while the timer runs, of two successive frames with timestamps
    in order the second never shows more remaining seconds than the first,
    and never stores a smaller elapsed time. *)
Theorem countdown_never_rises (env1 env2 : Env) (now1 now2 : Q) (s : State) :
  reachable s -> running s = true -> (now1 <= now2)%Q ->
  let s1 := handle env1 (AnimationFrame now1) s in
  let s2 := handle env2 (AnimationFrame now2) s1 in
  secondsLeft s2 <= secondsLeft s1 /\ (elapsed s1 <= elapsed s2)%Q.
Proof.
  intros H R Hle s1 s2.
  destruct (reachable_running s H R) as [h [_ F]].
  destruct (Qle_bool (inject_Z (totalSecondsRef s)) (elapsedAt now1 s)) eqn:E1.
  - destruct (frame_complete env1 now1 s h R F E1)
      as [P1 [_ [_ [_ [_ [_ P7]]]]]].
    fold s1 in P1, P7. unfold s2.
    rewrite (handle_AnimationFrame_idle env2 now2 s1 P7).
    split; [ lia | apply Qle_refl ].
  - destruct (frame_continue env1 now1 s h R F E1)
      as [C1 [C2 [C3 [_ [C5 _]]]]].
    destruct (frame_continue_refs env1 now1 s h R F E1) as [C6 C7].
    fold s1 in C1, C2, C3, C5, C6, C7.
    assert (A : elapsedAt now2 s1 = elapsedAt now2 s).
    { unfold elapsedAt, startTimestamp. now rewrite C6. }
    pose proof (elapsedAt_monotone now1 now2 s Hle) as Hm.
    destruct (Qle_bool (inject_Z (totalSecondsRef s1)) (elapsedAt now2 s1))
      eqn:E2.
    + destruct (frame_complete env2 now2 s1 _ C1 C5 E2)
        as [_ [P2 [_ [P4 _]]]].
      fold s2 in P2, P4. rewrite P2, P4, C2, C3, C7. split.
      * apply remainingSeconds_spec.
      * apply Qlt_le_weak. now apply Qle_bool_false.
    + destruct (frame_continue env2 now2 s1 _ C1 C5 E2) as [_ [D2 [D3 _]]].
      fold s2 in D2, D3. rewrite D2, D3, C2, C3, C7, A. split.
      * now apply remainingSeconds_antitone.
      * exact Hm.
Qed.

Lemma countdown_never_rises_witness :
  secondsLeft
    (handle (mkEnv 5000 0) (AnimationFrame 5000)
       (handle (mkEnv 4000 0) (AnimationFrame 4000) midRunState))
  <= secondsLeft (handle (mkEnv 4000 0) (AnimationFrame 4000) midRunState).
Proof.
  apply (countdown_never_rises (mkEnv 4000 0) (mkEnv 5000 0) 4000 5000
           midRunState).
  - apply midRunState_reachable.
  - reflexivity.
  - vm_compute. discriminate.
Defined.

(** ** The curve and its drawing *)

(** The sample number [i] of the curve. *)
Lemma curve_sample_at (minutes : Z) (samples i : nat) :
  0 < minutes -> (0 < samples)%nat -> (i <= samples)%nat ->
  exists p,
    nth_error (Curve.sampleProductivityCurve minutes samples) i = Some p /\
    Curve.px p = (INR i / INR samples)%R /\
    (0 < Curve.py p <= 1)%R.
Proof.
  intros Hm Hs Hi.
  assert (E : nth_error (Curve.sampleProductivityCurve minutes samples) i
              = Some (Curve.mkPoint
                        (Curve.px (Curve.rawPoint minutes samples i))
                        (Curve.py (Curve.rawPoint minutes samples i)
                         / Curve.Math_max
                             (map Curve.py (Curve.rawPoints minutes samples))))).
  { unfold Curve.sampleProductivityCurve, Curve.rawPoints.
    rewrite map_map. rewrite nth_error_map_seq by lia. reflexivity. }
  eexists. split; [ exact E | ]. split; [ reflexivity | ].
  apply (proj2 (sampleProductivityCurve_max minutes samples Hm Hs)).
  apply nth_error_In with (n := i). exact E.
Qed.

(** X16: for each of the durations the component offers, the curve it
    samples (with the default of 200 samples) has 201 points; every point
    has 0 <= x <= 1 and a height 0 < y <= 1; x grows strictly from point to
    point, from 0 at the first point to 1 at the last. *)
Theorem curve_samples_shape (minutes : Z) :
  In minutes DURATIONS ->
  let curve := Curve.sampleProductivityCurve minutes Curve.defaultSamples in
  length curve = 201%nat /\
  (forall i p, nth_error curve i = Some p ->
     (0 <= Curve.px p <= 1)%R /\ (0 < Curve.py p <= 1)%R) /\
  (forall i j p q, (i < j)%nat ->
     nth_error curve i = Some p -> nth_error curve j = Some q ->
     (Curve.px p < Curve.px q)%R) /\
  (exists p, hd_error curve = Some p /\ Curve.px p = 0%R) /\
  (exists p, nth_error curve 200 = Some p /\ Curve.px p = 1%R).
Proof.
  intros Hd curve. apply DURATIONS_pos in Hd.
  assert (L : length curve = 201%nat).
  { unfold curve, Curve.sampleProductivityCurve.
    now rewrite length_map, rawPoints_length. }
  assert (A : forall i p, nth_error curve i = Some p ->
            (i <= 200)%nat /\ Curve.px p = (INR i / 200)%R /\
            (0 < Curve.py p <= 1)%R).
  { intros i p E.
    assert (Hi : (i < 201)%nat).
    { rewrite <- L. apply nth_error_Some. congruence. }
    destruct (curve_sample_at minutes Curve.defaultSamples i Hd)
      as [p' [E' [Hx Hy]]]; [ unfold Curve.defaultSamples; lia .. | ].
    fold curve in E'. rewrite E in E'. injection E' as <-.
    split; [ lia | ]. split; [ | exact Hy ].
    rewrite Hx. unfold Curve.defaultSamples.
    rewrite (INR_IZR_INZ 200). reflexivity. }
  split; [ exact L | ]. split; [ | split; [ | split ] ].
  - intros i p E. destruct (A i p E) as [Hi [Hx Hy]].
    split; [ | exact Hy ]. rewrite Hx.
    pose proof (pos_INR i) as H0. apply le_INR in Hi.
    rewrite (INR_IZR_INZ 200) in Hi. change (Z.of_nat 200) with 200 in Hi.
    lra.
  - intros i j p q Hij Ei Ej.
    destruct (A i p Ei) as [_ [-> _]]. destruct (A j q Ej) as [_ [-> _]].
    apply lt_INR in Hij. lra.
  - destruct (curve_sample_at minutes Curve.defaultSamples 0 Hd)
      as [p [E [Hx _]]]; [ unfold Curve.defaultSamples; lia .. | ].
    fold curve in E. exists p. split.
    + destruct curve; [ discriminate | exact E ].
    + rewrite Hx. simpl. unfold Rdiv. apply Rmult_0_l.
  - destruct (curve_sample_at minutes Curve.defaultSamples 200 Hd)
      as [p [E [Hx _]]]; [ unfold Curve.defaultSamples; lia .. | ].
    fold curve in E. exists p. split; [ exact E | ].
    rewrite Hx. unfold Curve.defaultSamples. field.
    rewrite (INR_IZR_INZ 200). change (Z.of_nat 200) with 200. lra.
Qed.

Lemma curve_samples_shape_witness :
  length (Curve.sampleProductivityCurve 30 Curve.defaultSamples) = 201%nat.
Proof.
  apply (curve_samples_shape 30). unfold DURATIONS. simpl. tauto.
Defined.

Lemma fraction_bounds (s : State) : Inv s -> (0 <= fraction s <= 1)%Q.
Proof.
  intros [Hd Ht Hlo _ _ _ _]. unfold fraction.
  pose proof (DURATIONS_range _ Hd) as Hr.
  assert (Hpos : 0 < totalSecondsRef s) by lia.
  rewrite (proj2 (Z.ltb_lt 0 (totalSecondsRef s)) Hpos).
  split; [ | apply Q.le_min_l ].
  apply Q.min_glb; [ discriminate | ].
  apply Qle_shift_div_l.
  - change 0%Q with (inject_Z 0). now rewrite <- Zlt_Qlt.
  - now rewrite Qmult_0_l.
Qed.

Lemma sampleProductivityCurve_length (minutes : Z) (samples : nat) :
  length (Curve.sampleProductivityCurve minutes samples) = S samples.
Proof.
  unfold Curve.sampleProductivityCurve.
  now rewrite length_map, rawPoints_length.
Qed.

Lemma curveRef_length (s : State) : Inv s -> length (curveRef s) = 201%nat.
Proof.
  intros HI. rewrite (inv_curve s HI). apply sampleProductivityCurve_length.
Qed.

Lemma index_bounds (s : State) : Inv s -> 0 <= index s <= 200.
Proof.
  intros HI. destruct (fraction_bounds s HI) as [F0 F1].
  unfold index. rewrite (curveRef_length s HI).
  change (Z.of_nat 201 - 1) with 200. split.
  - change 0 with (Qfloor 0). apply Qfloor_resp_le.
    apply Qmult_le_0_compat; [ exact F0 | discriminate ].
  - rewrite <- (Qfloor_Z 200). apply Qfloor_resp_le.
    apply Qle_trans with (y := (1 * inject_Z 200)%Q).
    + apply Qmult_le_compat_r; [ exact F1 | discriminate ].
    + rewrite Qmult_1_l. apply Qle_refl.
Qed.

(** X17: in every state the component can be in, and for every elapsed
    time E between 0 and the total, the progress fraction of line 231 and
    the index of line 232, both computed in binary64, are defined; the
    fraction lies in [0, 1], the index in 0..200, [points[index]] is a
    sample of the curve (the fallback to [points[0]] is never taken), and
    that sample is drawn inside the view box, at 0 <= x <= 700 and
    0 <= y < 110.  The index is 0 while nothing has elapsed and 200 once the
    elapsed time equals the total. *)
Theorem dot_index_double (s : State) (E : Q) :
  reachable s ->
  (0 <= E)%Q -> (E <= inject_Z (totalSecondsRef s))%Q ->
  exists f i p,
    Double.fraction (totalSecondsRef s) E = Some f /\
    (0 <= f <= 1)%Q /\
    Double.index (length (curveRef s)) f = Some i /\
    0 <= i <= 200 /\
    nth_error (curveRef s) (Z.to_nat i) = Some p /\
    dotPoint (curveRef s) i = Some p /\
    (0 <= dotX (dotPoint (curveRef s) i) <= 700)%R /\
    (0 <= dotY (dotPoint (curveRef s) i) < 110)%R /\
    ((E == 0)%Q -> i = 0) /\
    ((E == inject_Z (totalSecondsRef s))%Q -> i = 200).
Proof.
  intros H E0 E1. pose proof (reachable_Inv s H) as HI.
  pose proof (inv_duration s HI) as Hd.
  pose proof (inv_total s HI) as Ht.
  assert (Hr : 5 <= selectedMinutes s <= 120).
  { clear - Hd. unfold DURATIONS in Hd. simpl in Hd. intuition lia. }
  destruct (fraction_value (totalSecondsRef s) E) as [f [Ff [F0 [F1 [Fa Fb]]]]];
    [ lia | exact E0 | exact E1 | ].
  destruct (index_value 200 f) as [i [Ri [Ei [Hi [Ia Ib]]]]];
    [ lia | exact F0 | exact F1 | ].
  destruct (curve_sample_at (selectedMinutes s) Curve.defaultSamples
              (Z.to_nat i)) as [p [Ep [Hx Hy]]];
    [ lia | unfold Curve.defaultSamples; lia .. | ].
  rewrite <- (inv_curve s HI) in Ep.
  exists f, i, p.
  split; [ exact Ff | ]. split; [ now split | ].
  split.
  { unfold Double.index, Double.mul, Double.bind.
    rewrite (curveRef_length s HI).
    change (inject_Z (Z.of_nat 201 - 1)) with (inject_Z 200).
    rewrite Ri, Ei. reflexivity. }
  split; [ exact Hi | ]. split; [ exact Ep | ].
  assert (D : dotPoint (curveRef s) i = Some p).
  { unfold dotPoint, at_index.
    rewrite (proj2 (Z.ltb_ge i 0)) by lia. now rewrite Ep. }
  split; [ exact D | ]. rewrite D. unfold dotX, dotY.
  split.
  { rewrite Hx. unfold graphWidth, Curve.defaultSamples.
    rewrite !INR_IZR_INZ, Z2Nat.id by lia.
    change (Z.of_nat 200) with 200.
    assert (0 <= IZR i <= 200)%R.
    { split; [ apply (IZR_le 0) | apply (IZR_le _ 200) ]; lia. }
    lra. }
  split; [ unfold graphHeight; lra | ].
  split; intros Hz; [ apply Ia, Fa, Hz | apply Ib, Fb, Hz ].
Qed.

(** 43.5 of 300 seconds elapsed. *)
Lemma dot_index_double_witness :
  exists f i p,
    Double.fraction (totalSecondsRef midRunState) (87 # 2) = Some f /\
    Double.index (length (curveRef midRunState)) f = Some i /\
    0 <= i <= 200 /\
    dotPoint (curveRef midRunState) i = Some p.
Proof.
  destruct (dot_index_double midRunState (87 # 2) midRunState_reachable)
    as [f [i [p [H1 [_ [H3 [H4 [_ [H5 _]]]]]]]]].
  - vm_compute. discriminate.
  - vm_compute. discriminate.
  - exists f, i, p. repeat split; tauto.
Defined.

Lemma point_eta (p : Curve.Point) :
  Curve.mkPoint (Curve.px p) (Curve.py p) = p.
Proof. now destruct p. Qed.

Lemma map_pointAt_seq (q : list Curve.Point) :
  map (pointAt q) (seq 0 (length q)) = q.
Proof.
  induction q as [ | a q IH ]; [ reflexivity | ].
  simpl. f_equal. rewrite <- seq_shift, map_map. exact IH.
Qed.

Lemma bezier_tail_endPoints (q : list Curve.Point) (l : list nat) :
  map endPoint (flat_map (bezierSegment q) (map S l))
  = map (fun i => pointAt q (S (S i))) l.
Proof.
  induction l as [ | a l IH ]; [ reflexivity | ].
  simpl. rewrite IH. f_equal.
  rewrite Nat.add_1_r. apply point_eta.
Qed.

(** The path of two or more points ends its commands at the points, in
    their order. *)
Lemma catmullRom2bezier_endPoints (q : list Curve.Point) :
  (2 <= length q)%nat -> map endPoint (catmullRom2bezier q) = q.
Proof.
  intros H. unfold catmullRom2bezier.
  destruct q as [ | a [ | b q' ] ]; simpl in H; try lia.
  change (length (a :: b :: q') - 1)%nat with (S (length q')).
  change (seq 0 (S (length q'))) with (0%nat :: seq 1 (length q')).
  rewrite <- seq_shift.
  change (flat_map (bezierSegment (a :: b :: q'))
            (0%nat :: map S (seq 0 (length q'))))
    with (bezierSegment (a :: b :: q') 0
          ++ flat_map (bezierSegment (a :: b :: q'))
               (map S (seq 0 (length q')))).
  rewrite map_app, bezier_tail_endPoints.
  unfold bezierSegment at 1. simpl. rewrite !point_eta. do 2 f_equal.
  apply (map_pointAt_seq q').
Qed.

(** X18: the path of fewer than two points has no command; the path of
    two or more points starts with a move to the first point in drawing
    coordinates and has one command per point, each ending at its point, in
    order: the drawn curve passes through every sample. *)
Theorem buildPath_through_samples (points : list Curve.Point) :
  ((length points <= 1)%nat -> buildPath points = []) /\
  ((2 <= length points)%nat ->
     map endPoint (buildPath points) = map coord points /\
     length (buildPath points) = length points /\
     exists c, buildPath points
               = MoveTo (Curve.px (coord (pointAt points 0)))
                   (Curve.py (coord (pointAt points 0))) :: c).
Proof.
  split.
  - intros H. unfold buildPath, catmullRom2bezier. rewrite length_map.
    destruct points as [ | a [ | b l ] ]; simpl in *; try reflexivity; lia.
  - intros H.
    assert (E : map endPoint (buildPath points) = map coord points).
    { unfold buildPath. apply catmullRom2bezier_endPoints.
      now rewrite length_map. }
    split; [ exact E | ]. split.
    + rewrite <- (length_map endPoint), E. apply length_map.
    + unfold buildPath, catmullRom2bezier. rewrite length_map.
      destruct points as [ | a [ | b l ] ]; simpl in H; try lia.
      eexists. simpl. reflexivity.
Qed.

Lemma buildPath_through_samples_witness :
  length (buildPath (Curve.sampleProductivityCurve 30 Curve.defaultSamples))
  = 201%nat.
Proof.
  destruct (buildPath_through_samples
              (Curve.sampleProductivityCurve 30 Curve.defaultSamples))
    as [_ H].
  destruct H as [_ [H _]].
  - rewrite sampleProductivityCurve_length. unfold Curve.defaultSamples. lia.
  - rewrite H. apply sampleProductivityCurve_length.
Defined.

Lemma index_of_fraction (s : State) (f : Q) :
  Inv s -> (fraction s == f)%Q -> index s = Qfloor (f * 200).
Proof.
  intros HI E. unfold index. rewrite (curveRef_length s HI).
  change (Z.of_nat 201 - 1) with 200.
  apply Qfloor_comp. now rewrite E.
Qed.

(** X20: the dot is on the first sample while nothing has elapsed and on
    the last sample once the elapsed time equals the total. *)
Theorem dot_endpoints (s : State) :
  reachable s ->
  ((elapsed s == 0)%Q -> index s = 0) /\
  ((elapsed s == inject_Z (totalSecondsRef s))%Q -> index s = 200).
Proof.
  intros H. pose proof (reachable_Inv s H) as HI.
  pose proof (DURATIONS_range _ (inv_duration s HI)) as Hr.
  pose proof (inv_total s HI) as Ht.
  assert (Hpos : 0 < totalSecondsRef s) by lia.
  assert (Hne : ~ (inject_Z (totalSecondsRef s) == 0)%Q).
  { intros E. unfold Qeq in E. simpl in E. lia. }
  assert (F : (fraction s
               == Qmin 1 (elapsed s / inject_Z (totalSecondsRef s)))%Q).
  { unfold fraction. now rewrite (proj2 (Z.ltb_lt 0 _) Hpos). }
  split; intros E.
  - apply (index_of_fraction s 0 HI). rewrite F, E.
    unfold Qdiv. rewrite Qmult_0_l. reflexivity.
  - apply (index_of_fraction s 1 HI). rewrite F, E.
    unfold Qdiv. rewrite Qmult_inv_r by exact Hne. reflexivity.
Qed.

Lemma dot_endpoints_witness :
  index (handle (mkEnv 301000 0) (AnimationFrame 301000) midRunState) = 200.
Proof.
  apply (dot_endpoints
           (handle (mkEnv 301000 0) (AnimationFrame 301000) midRunState)).
  - apply reachable_handle; [ apply midRunState_reachable | exact I ].
  - vm_compute. reflexivity.
Defined.

(** X21: a second click on Add right after the first changes nothing
    more: an accepted text is cleared from the input, so it is added once. *)
Theorem add_twice_adds_once (env env' : Env) (s : State) :
  handle env' ClickAdd (handle env ClickAdd s) = handle env ClickAdd s.
Proof.
  rewrite !handle_ClickAdd.
  destruct (JsString.isFalsy (JsString.trim (newTask s))) eqn:E.
  - unfold addTask. now rewrite !E.
  - assert (A : addTask (dateNow env) s
               = setNewTask []
                   (setTasks
                      (fun t => t ++ [mkTask (dateNow env)
                                        (JsString.trim (newTask s)) false])
                      s)).
    { unfold addTask. now rewrite E. }
    rewrite A. reflexivity.
Qed.

Lemma fraction_done (s : State) :
  Inv s -> (elapsed s == inject_Z (totalSecondsRef s))%Q ->
  (fraction s == 1)%Q.
Proof.
  intros HI E.
  pose proof (DURATIONS_range _ (inv_duration s HI)) as Hr.
  pose proof (inv_total s HI) as Ht.
  assert (Hpos : 0 < totalSecondsRef s) by lia.
  assert (Hne : ~ (inject_Z (totalSecondsRef s) == 0)%Q).
  { intros E0. unfold Qeq in E0. simpl in E0. lia. }
  unfold fraction. rewrite (proj2 (Z.ltb_lt 0 _) Hpos), E.
  unfold Qdiv. rewrite Qmult_inv_r by exact Hne. reflexivity.
Qed.

(** X22: in every state the component can be in the dash offset of the
    ring lies between 0 and the length of the ring, and it is 0 once the
    elapsed time equals the total. *)
Theorem ring_offset_bounds (s : State) :
  reachable s ->
  (0 <= strokeDashoffset s <= strokeDasharray)%R /\
  ((elapsed s == inject_Z (totalSecondsRef s))%Q ->
   strokeDashoffset s = 0%R).
Proof.
  intros H. pose proof (reachable_Inv s H) as HI.
  destruct (fraction_bounds s HI) as [F0 F1].
  apply Qle_Rle in F0, F1. rewrite RMicromega.Q2R_0 in F0.
  rewrite RMicromega.Q2R_1 in F1.
  pose proof PI_RGT_0 as Hpi.
  unfold strokeDashoffset, strokeDasharray. split.
  - split; [ apply Rmult_le_pos; lra | ].
    rewrite <- (Rmult_1_r (PI * 2 * 52)) at 2.
    apply Rmult_le_compat_l; lra.
  - intros E. rewrite (Qeq_eqR _ _ (fraction_done s HI E)).
    rewrite RMicromega.Q2R_1. ring.
Qed.

Lemma ring_offset_bounds_witness :
  (0 <= strokeDashoffset midRunState <= strokeDasharray)%R.
Proof.
  apply (ring_offset_bounds midRunState midRunState_reachable).
Defined.
